(** * The authenticated file-ingestion subsystem of [backend/src/server.js]

    The upload part of the server is three callbacks handed to the multer
    middleware ([storage.destination], [storage.filename], [fileFilter]) and
    two route handlers ([POST /img/], [POST /document/]).  They are embedded
    here as Rocq functions, in continuation-passing style like the source,
    over a small model of the ECMAScript and Node primitives they call. *)

From Stdlib Require Import ZArith NArith List String Ascii Lia DecimalString
  DecimalZ DecimalPos.
From stdpp Require Import base list gmap.

(** ** ECMAScript strings, values and completions *)

(** A string is its sequence of UTF-16 code units. *)
Abbreviation jsstring := (list N) (only parsing).

Module Js.

(** An ASCII literal of the program text, as a string value. *)
Definition js (s : string) : jsstring := map N_of_ascii (list_ascii_of_string s).
Arguments js s%_string : simpl never.

(** The error objects that travel through the upload path. *)
Inductive jsError :=
| UserInputError (message : jsstring)      (* apollo-server-express *)
| TypeError (message : jsstring)           (* raised by Node itself *)
| MulterError (code field : jsstring)      (* raised by multer *)
| HostError (message : jsstring).          (* anything a collaborator throws *)

Inductive jsval :=
| VUndefined
| VNull
| VBool (b : bool)
| VNumber (n : Z)
| VString (s : jsstring)
| VError (e : jsError).

(** ToBoolean, as used by [if (...)]. *)
Definition truthy (v : jsval) : bool :=
  match v with
  | VUndefined | VNull => false
  | VBool b => b
  | VNumber n => negb (n =? 0)%Z
  | VString s => negb (bool_decide (s = []))
  | VError _ => true
  end.

(** The result of evaluating a piece of code: a value, or a thrown error. *)
Inductive completion (A : Type) :=
| Normal (a : A)
| Throw (e : jsError).
Arguments Normal {A} a.
Arguments Throw {A} e.

Definition bind {A B} (c : completion A) (k : A -> completion B) : completion B :=
  match c with
  | Normal a => k a
  | Throw e => Throw e
  end.

(** [try { body } catch (error) { handler }] *)
Definition tryCatch {A} (body : completion A) (handler : jsError -> completion A)
  : completion A :=
  match body with
  | Normal a => Normal a
  | Throw e => handler e
  end.

(** A Node-style callback [cb(err, value)]. *)
Definition callback (R : Type) := jsval -> jsval -> completion R.

(** [String.prototype.startsWith] *)
Fixpoint startsWith (s p : jsstring) {struct p} : bool :=
  match p with
  | [] => true
  | c :: p' =>
      match s with
      | [] => false
      | d :: s' => (d =? c)%N && startsWith s' p'
      end
  end.

(** [String.prototype.indexOf]: the first index at which the needle occurs,
    or -1. *)
Fixpoint indexOfFrom (s needle : jsstring) (i : Z) : Z :=
  if startsWith s needle then i
  else match s with
       | [] => (-1)%Z
       | _ :: s' => indexOfFrom s' needle (i + 1)%Z
       end.

Definition indexOf (s needle : jsstring) : Z := indexOfFrom s needle 0.

(** [String.prototype.slice] with one argument: a negative start counts from
    the end of the string. *)
Definition slice (s : jsstring) (start : Z) : jsstring :=
  let len := Z.of_nat (length s) in
  let from := if (start <? 0)%Z then Z.max (len + start) 0 else Z.min start len in
  drop (Z.to_nat from) s.

(** Number-to-string conversion inside a template literal, for the integers
    a time value ranges over (at most 8.64e15 in absolute value, so always
    plain decimal digits). *)
Definition numberToString (n : Z) : jsstring :=
  js (NilZero.string_of_int (Z.to_int n)).

End Js.
Export Js.

(** ** Regular expressions

    The fragment of ECMAScript patterns that the program uses, with a
    backtracking matcher in continuation-passing style. *)
Module RegExp.

Inductive regex :=
| Empty
| Char (c : N)               (* a pattern character *)
| Dot                        (* [.] *)
| Eol                        (* [$] *)
| Seq (r1 r2 : regex)
| Alt (r1 r2 : regex)        (* [r1|r2] *)
| Opt (r : regex)            (* [r?] *)
| Star (r : regex).          (* [r*] *)

Record flags := { global : bool; ignoreCase : bool; multiline : bool }.

(** LineTerminator: LF, CR, LINE SEPARATOR, PARAGRAPH SEPARATOR. *)
Definition isLineTerminator (c : N) : bool :=
  ((c =? 10) || (c =? 13) || (c =? 8232) || (c =? 8233))%N.

(** Canonicalize of the non-Unicode mode.  Under [ignoreCase] a character is
    compared through its upper-case form, and a character outside ASCII never
    canonicalizes into ASCII; since every pattern character of the program is
    ASCII, only the ASCII letters need their mapping spelled out. *)
Definition canonicalize (fl : flags) (c : N) : N :=
  if ignoreCase fl then
    if ((97 <=? c) && (c <=? 122))%N then (c - 32)%N else c
  else c.

(** The assertion [$]: the end of the input, or with [multiline] the position
    before a line terminator. *)
Definition atEol (fl : flags) (s : jsstring) : bool :=
  match s with
  | [] => true
  | c :: _ => multiline fl && isLineTerminator c
  end.

(** [m fl r s k]: [r] matches a prefix of [s] such that the continuation [k]
    accepts the rest.  An iteration of a star must consume input. *)
Fixpoint m (fl : flags) (r : regex) (s : jsstring) (k : jsstring -> bool) : bool :=
  match r with
  | Empty => k s
  | Char c =>
      match s with
      | [] => false
      | d :: s' => (canonicalize fl d =? canonicalize fl c)%N && k s'
      end
  | Dot =>
      match s with
      | [] => false
      | d :: s' => negb (isLineTerminator d) && k s'
      end
  | Eol => atEol fl s && k s
  | Seq r1 r2 => m fl r1 s (fun s' => m fl r2 s' k)
  | Alt r1 r2 => m fl r1 s k || m fl r2 s k
  | Opt r1 => m fl r1 s k || k s
  | Star r1 =>
      (fix loop (fuel : nat) (s : jsstring) : bool :=
         match fuel with
         | O => k s
         | S fuel' =>
             m fl r1 s (fun s' => (length s' <? length s)%nat && loop fuel' s')
             || k s
         end) (length s) s
  end.

(** A match starting at some index of the input. *)
Fixpoint search (fl : flags) (r : regex) (s : jsstring) : bool :=
  m fl r s (fun _ => true)
  || match s with
     | [] => false
     | _ :: s' => search fl r s'
     end.

(** [String.prototype.match]: the array of matches, or [null] when there is
    none.  Only the truth value of the result is observed by the program:
    it is truthy exactly when the pattern matches somewhere. *)
Definition String_match (s : jsstring) (fl : flags) (r : regex) : jsval :=
  if search fl r s then VBool true else VNull.

(** A sequence of pattern characters. *)
Fixpoint lit (w : jsstring) : regex :=
  match w with
  | [] => Empty
  | [c] => Char c
  | c :: w' => Seq (Char c) (lit w')
  end.

End RegExp.

(** ** Node's [path] module (POSIX flavour) *)
Module Path.

(** The segments of a path between its [/] separators. *)
Fixpoint segments (p : jsstring) : list jsstring :=
  match p with
  | [] => [[]]
  | c :: p' =>
      if (c =? 47)%N then [] :: segments p'
      else match segments p' with
           | seg :: segs => (c :: seg) :: segs
           | [] => [[c]]
           end
  end.

Fixpoint joinSegments (segs : list jsstring) : jsstring :=
  match segs with
  | [] => []
  | [seg] => seg
  | seg :: segs' => seg ++ js "/" ++ joinSegments segs'
  end.

(** [normalizeString]: empty and [.] segments vanish, [..] removes the
    segment before it; [acc] is the stack of kept segments, last first. *)
Fixpoint resolveDots (allowAboveRoot : bool) (segs acc : list jsstring)
  : list jsstring :=
  match segs with
  | [] => rev acc
  | seg :: rest =>
      if bool_decide (seg = []) || bool_decide (seg = js ".") then
        resolveDots allowAboveRoot rest acc
      else if bool_decide (seg = js "..") then
        match acc with
        | top :: acc' =>
            if bool_decide (top = js "..")
            then resolveDots allowAboveRoot rest (seg :: acc)
            else resolveDots allowAboveRoot rest acc'
        | [] =>
            if allowAboveRoot
            then resolveDots allowAboveRoot rest [seg]
            else resolveDots allowAboveRoot rest []
        end
      else resolveDots allowAboveRoot rest (seg :: acc)
  end.

Definition normalizeString (p : jsstring) (allowAboveRoot : bool) : jsstring :=
  joinSegments (resolveDots allowAboveRoot (segments p) []).

Definition isAbsolute (p : jsstring) : bool := startsWith p (js "/").

Definition endsWithSep (p : jsstring) : bool :=
  match last p with
  | Some c => (c =? 47)%N
  | None => false
  end.

(** [path.normalize] *)
Definition normalize (p : jsstring) : jsstring :=
  match p with
  | [] => js "."
  | _ =>
      let q := normalizeString p (negb (isAbsolute p)) in
      match q with
      | [] => if isAbsolute p then js "/"
              else if endsWithSep p then js "./" else js "."
      | _ =>
          let q' := if endsWithSep p then q ++ js "/" else q in
          if isAbsolute p then js "/" ++ q' else q'
      end
  end.

(** [validateString]: every argument of [path.join] must be a string. *)
Definition validateString (v : jsval) : completion jsstring :=
  match v with
  | VString s => Normal s
  | _ => Throw (TypeError (js "ERR_INVALID_ARG_TYPE"))
  end.

(** [path.join(a, b)] *)
Definition join (a b : jsval) : completion jsstring :=
  bind (validateString a) (fun a =>
  bind (validateString b) (fun b =>
    match a, b with
    | [], [] => Normal (js ".")
    | [], _ => Normal (normalize b)
    | _, [] => Normal (normalize a)
    | _, _ => Normal (normalize (a ++ js "/" ++ b))
    end)).

(** [path.resolve(p)] in a process whose working directory is [cwd]. *)
Definition resolve (cwd p : jsstring) : jsstring :=
  let full :=
    if isAbsolute p then p ++ js "/"
    else match p with
         | [] => cwd ++ js "/"
         | _ => cwd ++ js "/" ++ p ++ js "/"
         end in
  let resolvedAbsolute := isAbsolute p || isAbsolute cwd in
  let q := normalizeString full (negb resolvedAbsolute) in
  if resolvedAbsolute then js "/" ++ q
  else match q with [] => js "." | _ => q end.

End Path.

(** ** Node's [url.pathToFileURL] *)
Module Url.

(** The code points of a string; an unpaired surrogate reads as U+FFFD. *)
Fixpoint codePoints (s : jsstring) : list N :=
  match s with
  | [] => []
  | c :: s' =>
      if ((55296 <=? c) && (c <=? 56319))%N then
        match s' with
        | d :: s'' =>
            if ((56320 <=? d) && (d <=? 57343))%N
            then (65536 + (c - 55296) * 1024 + (d - 56320))%N :: codePoints s''
            else 65533%N :: codePoints s'
        | [] => [65533%N]
        end
      else if ((56320 <=? c) && (c <=? 57343))%N then 65533%N :: codePoints s'
      else c :: codePoints s'
  end.

Definition utf8 (cp : N) : list N :=
  (if cp <? 128 then [cp]
   else if cp <? 2048 then [192 + cp / 64; 128 + cp mod 64]
   else if cp <? 65536 then
     [224 + cp / 4096; 128 + (cp / 64) mod 64; 128 + cp mod 64]
   else
     [240 + cp / 262144; 128 + (cp / 4096) mod 64;
      128 + (cp / 64) mod 64; 128 + cp mod 64])%N.

Definition hexDigit (n : N) : N := (if n <? 10 then 48 + n else 55 + n)%N.

Definition percentByte (b : N) : jsstring :=
  [37%N; hexDigit (b / 16); hexDigit (b mod 16)].

(** The characters that reach the URL escaped: [%], backslash, newline,
    carriage return and tab are escaped by [pathToFileURL] itself, the
    others by the path percent-encode set of the URL parser: controls,
    space, double quote, hash, angle brackets, question mark, backquote,
    braces, and everything outside ASCII. *)
Definition escaped (cp : N) : bool :=
  ((cp <=? 32) || (cp =? 34) || (cp =? 35) || (cp =? 37) || (cp =? 60)
   || (cp =? 62) || (cp =? 63) || (cp =? 92) || (cp =? 96) || (cp =? 123)
   || (cp =? 125) || (127 <=? cp))%N.

Definition encodeCodePoint (cp : N) : jsstring :=
  if escaped cp then concat (map percentByte (utf8 cp)) else [cp].

(** [url.pathToFileURL(filepath).toString()] *)
Definition pathToFileURL (cwd filepath : jsstring) : jsstring :=
  let resolved := Path.resolve cwd filepath in
  let resolved :=
    if Path.endsWithSep filepath && negb (Path.endsWithSep resolved)
    then resolved ++ js "/" else resolved in
  js "file://" ++ concat (map encodeCodePoint (codePoints resolved)).

End Url.

(** ** The upload callbacks and routes of [server.js] *)
Module Server.
Import RegExp.

(** The file object multer hands to the callbacks, with the bytes of its
    stream. *)
Record File := {
  fieldname : jsstring;
  originalname : jsstring;
  mimetype : jsstring;
  stream : list N
}.

(** An upload request: one optional multipart file, and the completion of
    the expression [getUser(req).userId].  [getUser] comes from [./utils] and
    reads the session of the request; what it yields is an input here. *)
Record Request := {
  getUser_userId : completion jsval;
  attached : option File
}.

(** The process environment the callbacks read: the clock of
    [new Date().getTime()] and the working directory. *)
Record Env := { now : Z; cwd : jsstring }.

(** [storage.destination] *)
Definition destination {R} (req : Request) (file : File) (cb : callback R)
  : completion R :=
  if startsWith (mimetype file) (js "image") then
    cb VNull (VString (js "./public/img/"))
  else if
    startsWith (mimetype file)
      (js "application/vnd.openxmlformats-officedocument.wordprocessingml.document")
    || startsWith (mimetype file) (js "application/msword")
    || startsWith (mimetype file) (js "application/pdf")
  then cb VNull (VString (js "./public/document/"))
  else cb VNull (VBool false).

(** [storage.filename] *)
Definition filename {R} (env : Env) (req : Request) (file : File) (cb : callback R)
  : completion R :=
  cb VNull
     (VString (fieldname file ++ js "-" ++ numberToString (now env)
               ++ js "-" ++ originalname file)).

(** The pattern [/.*\.(gif|jpe?g|bmp|png|pdf|docx|doc)$/gim]. *)
Definition extensionFlags : flags :=
  {| global := true; ignoreCase := true; multiline := true |}.

Definition extensionPattern : regex :=
  Seq (Star Dot)
   (Seq (Char 46)
    (Seq (Alt (lit (js "gif"))
         (Alt (Seq (lit (js "jp")) (Seq (Opt (lit (js "e"))) (lit (js "g"))))
         (Alt (lit (js "bmp"))
         (Alt (lit (js "png"))
         (Alt (lit (js "pdf"))
         (Alt (lit (js "docx"))
              (lit (js "doc"))))))))
     Eol)).

(** [fileFilter] *)
Definition fileFilter {R} (req : Request) (file : File) (cb : callback R)
  : completion R :=
  tryCatch
    (bind (getUser_userId req) (fun userId =>
       if truthy userId then
         if truthy (String_match (originalname file) extensionFlags extensionPattern)
         then cb VNull (VBool true)
         else Throw (UserInputError (js "Unsupported file type"))
       else cb VNull (VBool false)))
    (fun error => cb (VError error) VUndefined).

(** *** The multer middleware, as far as the routes observe it *)

(** The file information multer attaches to the request as [req.file]. *)
Record StoredFile := {
  file : File;
  sf_destination : jsstring;
  sf_filename : jsstring;
  path : jsstring
}.

(** The disk, by absolute path. *)
Abbreviation disk := (gmap (list N) (list N)) (only parsing).

(** How the middleware leaves a request: it passes on to the route handler
    ([next()]) with [req.file] set or not, or it gives the request up with
    an error and the handler does not run. *)
Inductive outcome :=
| Next (d : disk) (reqfile : option StoredFile)
| Failed (err : jsval).

(** [DiskStorage._handleFile]: ask for the destination and the file name,
    join them, write the stream there. *)
Definition handleFile (env : Env) (d : disk) (req : Request) (f : File)
  : completion outcome :=
  destination req f (fun err dest =>
    if truthy err then Normal (Failed err) else
    filename env req f (fun err name =>
      if truthy err then Normal (Failed err) else
      bind (Path.join dest name) (fun finalPath =>
        Normal
          (Next (<[Path.resolve (cwd env) finalPath := stream f]> d)
                (Some {| file := f;
                         sf_destination :=
                           match dest with VString s => s | _ => [] end;
                         sf_filename :=
                           match name with VString s => s | _ => [] end;
                         path := finalPath |}))))).

(** The callback multer passes to [fileFilter]. *)
Definition filterCallback (env : Env) (d : disk) (req : Request) (f : File)
  : callback outcome :=
  fun err includeFile =>
    if truthy err then Normal (Failed err)
    else if negb (truthy includeFile) then Normal (Next d None)
    else handleFile env d req f.

(** [upload.single(field)]: a part without a file name is no file; a file
    under another field is refused; otherwise the filter decides. *)
Definition single (field : jsstring) (env : Env) (req : Request) (d : disk)
  : outcome :=
  match attached req with
  | None => Next d None
  | Some f =>
      if bool_decide (originalname f = []) then Next d None
      else if negb (bool_decide (fieldname f = field)) then
        Failed (VError (MulterError (js "LIMIT_UNEXPECTED_FILE") (fieldname f)))
      else
        match fileFilter req f (filterCallback env d req f) with
        | Normal o => o
        | Throw e => Failed (VError e)
        end
  end.

(** *** The routes *)

(** What the client gets: the body of [res.send], or no handler answer
    because the middleware gave the request up. *)
Inductive response :=
| Sent (body : jsstring)
| NotHandled (err : jsval).

(** The handler of [POST /img/] *)
Definition imgHandler (env : Env) (reqfile : option StoredFile) : response :=
  match reqfile with
  | Some f =>
      let fileURL := Url.pathToFileURL (cwd env) (path f) in
      Sent (slice fileURL (indexOf fileURL (js "img")))
  | None => Sent (js "Image not attached")
  end.

(** The handler of [POST /document/] *)
Definition documentHandler (env : Env) (reqfile : option StoredFile) : response :=
  match reqfile with
  | Some f =>
      let fileURL := Url.pathToFileURL (cwd env) (path f) in
      Sent (slice fileURL (indexOf fileURL (js "document")))
  | None => Sent (js "Document not attached")
  end.

Definition route (field : jsstring)
    (handler : Env -> option StoredFile -> response)
    (env : Env) (req : Request) (d : disk) : response * disk :=
  match single field env req d with
  | Next d' reqfile => (handler env reqfile, d')
  | Failed err => (NotHandled err, d)
  end.

(** [app.post('/img/', cors(corsOptions), upload.single('image'), ...)] *)
Definition postImg : Env -> Request -> disk -> response * disk :=
  route (js "image") imgHandler.

(** [app.post('/document/', cors(corsOptions), upload.single('document'), ...)] *)
Definition postDocument : Env -> Request -> disk -> response * disk :=
  route (js "document") documentHandler.

End Server.

Import RegExp Server.

(** * Vocabulary of the properties *)

(** ** Classification *)

(** The three document types [storage.destination] knows. *)
Definition documentTypes : list jsstring :=
  [ js "application/vnd.openxmlformats-officedocument.wordprocessingml.document";
    js "application/msword";
    js "application/pdf" ].

Definition isDocumentType (mime : jsstring) : Prop :=
  exists t, t ∈ documentTypes /\ t `prefix_of` mime.

(** ** The decision of the filter *)

(** The callback that only records what it is called with. *)
Definition record : callback (jsval * jsval) := fun err v => Normal (err, v).

(** The decision of the filter: the call it makes on a callback that
    returns. *)
Definition decision (req : Request) (f : File) : completion (jsval * jsval) :=
  fileFilter req f record.

(** The extension test of the filter. *)
Definition extensionOk (name : jsstring) : bool :=
  truthy (String_match name extensionFlags extensionPattern).

(** The request without its file. *)
Definition withoutFile (req : Request) : Request :=
  {| getUser_userId := getUser_userId req; attached := None |}.

(** ** Storing *)

(** The name [storage.filename] generates. *)
Definition generatedName (env : Env) (f : File) : jsstring :=
  fieldname f ++ js "-" ++ numberToString (now env) ++ js "-" ++ originalname f.

(** What [handleFile] leaves when the destination is the directory [dir]. *)
Definition storedIn (env : Env) (d : disk) (f : File) (dir : jsstring) : outcome :=
  let p := Path.normalize (dir ++ js "/" ++ generatedName env f) in
  Next (<[Path.resolve (cwd env) p := stream f]> d)
       (Some {| file := f; sf_destination := dir;
                sf_filename := generatedName env f; path := p |}).

Definition isDigit (c : N) : Prop := (48 <= c <= 57)%N.

(** ** Extensions and lines *)

Definition allowedExtensions : list jsstring :=
  [js "gif"; js "jpg"; js "jpeg"; js "bmp"; js "png"; js "pdf"; js "docx";
   js "doc"].

(** The lines of a string: what stands between its line terminators. *)
Fixpoint lines (s : jsstring) : list jsstring :=
  match s with
  | [] => [[]]
  | c :: s' =>
      if isLineTerminator c then [] :: lines s'
      else match lines s' with
           | l :: ls => (c :: l) :: ls
           | [] => [[c]]
           end
  end.

(** A string without line terminator. *)
Definition plain (s : jsstring) : Prop :=
  Forall (fun c => isLineTerminator c = false) s.

(** Letters in upper case, as the pattern compares them. *)
Definition upper (s : jsstring) : jsstring := map (canonicalize extensionFlags) s.

Definition endsWithIgnoreCase (s w : jsstring) : Prop :=
  upper w `suffix_of` upper s.

(** The extension of a file name: what follows its last dot. *)
Fixpoint extension (name : jsstring) : option jsstring :=
  match name with
  | [] => None
  | c :: rest =>
      match extension rest with
      | Some e => Some e
      | None => if (c =? 46)%N then Some rest else None
      end
  end.

Definition hasAllowedExtension (name : jsstring) : Prop :=
  exists x e, extension name = Some x /\ e ∈ allowedExtensions
              /\ upper x = upper e.

(** ** The matcher, unfolded *)

(** The loop of a star, over the matcher of its body. *)
Definition starLoop (mr : jsstring -> (jsstring -> bool) -> bool)
    (k : jsstring -> bool) : nat -> jsstring -> bool :=
  fix loop (fuel : nat) (s : jsstring) : bool :=
    match fuel with
    | O => k s
    | S fuel' =>
        mr s (fun s' => (length s' <? length s)%nat && loop fuel' s') || k s
    end.

(** Stripping a word from the front of the input, letters compared through
    [canonicalize]. *)
Fixpoint strip (fl : flags) (w s : jsstring) : option jsstring :=
  match w with
  | [] => Some s
  | c :: w' =>
      match s with
      | [] => None
      | d :: s' =>
          if (canonicalize fl d =? canonicalize fl c)%N then strip fl w' s'
          else None
      end
  end.

Definition after (fl : flags) (w s : jsstring) (k : jsstring -> bool) : bool :=
  match strip fl w s with
  | Some rest => k rest
  | None => false
  end.

(** The extension pattern after its leading [.*]. *)
Definition extensionTail : regex :=
  Seq (Char 46)
   (Seq (Alt (lit (js "gif"))
        (Alt (Seq (lit (js "jp")) (Seq (Opt (lit (js "e"))) (lit (js "g"))))
        (Alt (lit (js "bmp"))
        (Alt (lit (js "png"))
        (Alt (lit (js "pdf"))
        (Alt (lit (js "docx"))
             (lit (js "doc"))))))))
    Eol).

(** ** Sample requests *)

Definition env0 : Env := {| now := 1700000000000; cwd := js "/app" |}.

Definition upload (field name mime : jsstring) : File :=
  {| fieldname := field; originalname := name; mimetype := mime;
     stream := [1; 2; 3]%N |}.

Definition signedIn (f : File) : Request :=
  {| getUser_userId := Normal (VNumber 7); attached := Some f |}.

Definition anonymous (f : File) : Request :=
  {| getUser_userId := Normal VUndefined; attached := Some f |}.

Definition catPng : File := upload (js "image") (js "cat.PNG") (js "image/png").

Definition catExe : File := upload (js "image") (js "cat.exe") (js "image/png").

Definition notesTxt : File := upload (js "image") (js "notes.png") (js "text/plain").

Definition imagexFile : File := upload (js "image") (js "a.png") (js "imagex/y").

Definition reportPdf : File :=
  upload (js "document") (js "report.pdf") (js "application/pdf").

(** A PDF sent to [POST /img/]. *)
Definition pdfAsImage : File :=
  upload (js "image") (js "report.pdf") (js "application/pdf").

(** A file name of two lines: [a.png], a line feed, [b.exe]. *)
Definition twoLineName : jsstring := js "a.png" ++ [10%N] ++ js "b.exe".

Definition twoLineFile : File := upload (js "image") twoLineName (js "image/png").

(** [cat.PNG] declared as a PDF. *)
Definition catAsPdf : File :=
  upload (js "image") (js "cat.PNG") (js "application/pdf").

(** What [POST /img/] attaches to the request for [catPng] in [env0]. *)
Definition catStored : StoredFile :=
  {| file := catPng;
     sf_destination := js "./public/img/";
     sf_filename := js "image-1700000000000-cat.PNG";
     path := js "public/img/image-1700000000000-cat.PNG" |}.

(** ** Places *)

(** A path segment that [normalizeString] keeps as it is: not empty, not
    [.] or [..], and without separator. *)
Definition ordinary (seg : jsstring) : Prop :=
  seg <> [] /\ seg <> js "." /\ seg <> js ".." /\ 47%N ∉ seg.

(** The percent-encoding [pathToFileURL] applies to a path. *)
Definition encoded (p : jsstring) : jsstring :=
  concat (map Url.encodeCodePoint (Url.codePoints p)).

(** The directory under [public] that [storage.destination] chooses for a
    file. *)
Definition bucketOf (f : File) (dirname : jsstring) : Prop :=
  dirname = js "img" /\ js "image" `prefix_of` mimetype f
  \/ dirname = js "document" /\ ~ js "image" `prefix_of` mimetype f
     /\ isDocumentType (mimetype f).

(** The absolute path of the file [name] in the directory [dirname] of
    [public]. *)
Definition keptAt (env : Env) (dirname name : jsstring) : jsstring :=
  Path.resolve (cwd env) (js "public") ++ js "/" ++ dirname ++ js "/" ++ name.

(** ** More sample requests *)

(** A second upload of [cat.PNG], with other bytes. *)
Definition catPngAgain : File :=
  {| fieldname := js "image"; originalname := js "cat.PNG";
     mimetype := js "image/png"; stream := [4; 5; 6]%N |}.

Definition catStoredAgain : StoredFile :=
  {| file := catPngAgain;
     sf_destination := js "./public/img/";
     sf_filename := js "image-1700000000000-cat.PNG";
     path := js "public/img/image-1700000000000-cat.PNG" |}.

(** [cat.PNG] in the other letter case. *)
Definition catUpper : File := upload (js "image") (js "CAT.png") (js "image/png").

(** One millisecond after [env0]. *)
Definition env1 : Env := {| now := 1700000000001; cwd := js "/app" |}.

(** What [POST /img/] attaches to the request for [catPng] in [env1]. *)
Definition catStoredLater : StoredFile :=
  {| file := catPng;
     sf_destination := js "./public/img/";
     sf_filename := js "image-1700000000001-cat.PNG";
     path := js "public/img/image-1700000000001-cat.PNG" |}.

(** What [POST /document/] attaches to the request for [reportPdf] in
    [env0]. *)
Definition reportStored : StoredFile :=
  {| file := reportPdf;
     sf_destination := js "./public/document/";
     sf_filename := js "document-1700000000000-report.pdf";
     path := js "public/document/document-1700000000000-report.pdf" |}.

(** A request whose session lookup throws. *)
Definition brokenSession (f : File) : Request :=
  {| getUser_userId := Throw (HostError (js "session store down"));
     attached := Some f |}.

(** A callback that takes errors and throws on everything else. *)
Definition onlyErrors : callback jsval :=
  fun err _ =>
    if truthy err then Normal err else Throw (HostError (js "storage failed")).

(** * Properties *)

(** ** Strings *)

Lemma startsWith_prefix (s p : jsstring) :
  startsWith s p = true <-> p `prefix_of` s.
Proof.
  revert s; induction p as [|c p IH]; intros s; simpl.
  - split; [intros _; apply prefix_nil | done].
  - destruct s as [|d s].
    + split; [done | intros H; by apply prefix_nil_not in H].
    + rewrite andb_true_iff, N.eqb_eq, IH. split.
      * intros [-> H]. by apply prefix_cons.
      * intros H. split; [symmetry; eapply prefix_cons_inv_1, H
                         | eapply prefix_cons_inv_2, H].
Qed.

Lemma startsWith_not_prefix (s p : jsstring) :
  startsWith s p = false <-> ~ p `prefix_of` s.
Proof.
  rewrite <- startsWith_prefix. destruct (startsWith s p); split; try done.
Qed.

Lemma isDocumentType_spec (mime : jsstring) :
  startsWith mime
    (js "application/vnd.openxmlformats-officedocument.wordprocessingml.document")
  || startsWith mime (js "application/msword")
  || startsWith mime (js "application/pdf") = true
  <-> isDocumentType mime.
Proof.
  rewrite !orb_true_iff, !startsWith_prefix. unfold isDocumentType, documentTypes.
  split.
  - intros [[H|H]|H]; eexists; (split; [|exact H]); set_solver.
  - intros (t & Ht & Hp).
    rewrite !elem_of_cons, elem_of_nil in Ht.
    destruct Ht as [->|[->|[->|[]]]]; auto.
Qed.

(** ** [storage.destination] *)

(** C3: classification by declared MIME type, first match wins: a type
    that starts with [image] goes to the image directory; otherwise a type
    that starts with one of the three document types goes to the document
    directory. *)
Theorem destination_first_match R (req : Request) (f : File) (cb : callback R) :
  (js "image" `prefix_of` mimetype f ->
     destination req f cb = cb VNull (VString (js "./public/img/")))
  /\ (~ js "image" `prefix_of` mimetype f -> isDocumentType (mimetype f) ->
     destination req f cb = cb VNull (VString (js "./public/document/"))).
Proof.
  unfold destination. split.
  - intros H. apply startsWith_prefix in H. by rewrite H.
  - intros H1 H2. apply startsWith_not_prefix in H1.
    apply isDocumentType_spec in H2. by rewrite H1, H2.
Qed.

(** When neither prefix test succeeds the callback receives [false]. *)
Lemma destination_false R (req : Request) (f : File) (cb : callback R) :
  ~ js "image" `prefix_of` mimetype f -> ~ isDocumentType (mimetype f) ->
  destination req f cb = cb VNull (VBool false).
Proof.
  intros H1 H2. unfold destination.
  apply startsWith_not_prefix in H1. rewrite H1.
  destruct (_ || _) eqn:E; [|done].
  apply isDocumentType_spec in E. contradiction.
Qed.

(** ** [fileFilter] *)

(** What the filter decides, case by case. *)
Lemma decision_cases (req : Request) (f : File) :
  decision req f =
  match getUser_userId req with
  | Throw e => Normal (VError e, VUndefined)
  | Normal v =>
      if truthy v then
        if extensionOk (originalname f) then Normal (VNull, VBool true)
        else Normal (VError (UserInputError (js "Unsupported file type")), VUndefined)
      else Normal (VNull, VBool false)
  end.
Proof.
  unfold decision, fileFilter, record, extensionOk.
  destruct (getUser_userId req) as [v|e]; simpl; [|done].
  destruct (truthy v); [|done].
  by destruct (truthy (String_match _ _ _)).
Qed.

(** With any callback, the filter makes the call of its decision; when that
    call throws, the [catch] block calls back once more with the error. *)
Lemma fileFilter_decision R (req : Request) (f : File) (cb : callback R) :
  fileFilter req f cb =
  match decision req f with
  | Normal (VError e, _) => cb (VError e) VUndefined
  | Normal (err, v) => tryCatch (cb err v) (fun e => cb (VError e) VUndefined)
  | Throw e => Throw e
  end.
Proof.
  rewrite decision_cases. unfold fileFilter, extensionOk.
  destruct (getUser_userId req) as [v|e]; simpl; [|done].
  destruct (truthy v); [|done].
  by destruct (truthy (String_match _ _ _)).
Qed.

(** ** The middleware *)

(** [single] with the filter's decision spelled out. *)
Lemma single_cases (field : jsstring) (env : Env) (req : Request) (d : disk) :
  single field env req d =
  match attached req with
  | None => Next d None
  | Some f =>
      if bool_decide (originalname f = []) then Next d None
      else if negb (bool_decide (fieldname f = field)) then
        Failed (VError (MulterError (js "LIMIT_UNEXPECTED_FILE") (fieldname f)))
      else
        match getUser_userId req with
        | Throw e => Failed (VError e)
        | Normal v =>
            if truthy v then
              if extensionOk (originalname f) then
                match handleFile env d req f with
                | Normal o => o
                | Throw e => Failed (VError e)
                end
              else Failed (VError (UserInputError (js "Unsupported file type")))
            else Next d None
        end
  end.
Proof.
  unfold single. destruct (attached req) as [f|]; [|done].
  destruct (bool_decide (originalname f = [])); [done|].
  destruct (negb _); [done|].
  rewrite fileFilter_decision, decision_cases.
  destruct (getUser_userId req) as [v|e]; [|done].
  destruct (truthy v); [|done].
  destruct (extensionOk _); [|done].
  unfold tryCatch, filterCallback; simpl.
  by destruct (handleFile env d req f).
Qed.

(** A request whose session yields no identity passes through [single] as if
    it carried no file, provided the file sits under the route's field. *)
Lemma single_unauthenticated (field : jsstring) (env : Env) (req : Request)
    (d : disk) (f : File) (v : jsval) :
  attached req = Some f -> fieldname f = field ->
  getUser_userId req = Normal v -> truthy v = false ->
  single field env req d = Next d None.
Proof.
  intros Hf Hfield Hu Hv. rewrite single_cases, Hf, Hu, Hv.
  rewrite (bool_decide_eq_true_2 _ Hfield). simpl. by case_bool_decide.
Qed.

(** The two tiers of the filter, over the extension test as the code runs
    it (the pattern of [fileFilter], see [extensionOk]).  When the session
    yields no identity the filter calls back with no error and [false],
    whatever the file; when an identity is present and the pattern does not
    match it calls back with the error [Unsupported file type]; neither
    call is made in the other situation; and a route answers a silently
    skipped upload exactly as it answers the request without the file. *)
Theorem fileFilter_two_tier (req : Request) (f : File) (v : jsval) :
  getUser_userId req = Normal v ->
  (truthy v = false -> decision req f = Normal (VNull, VBool false))
  /\ (truthy v = true -> extensionOk (originalname f) = false ->
      decision req f =
      Normal (VError (UserInputError (js "Unsupported file type")), VUndefined))
  /\ (decision req f = Normal (VNull, VBool false) <-> truthy v = false)
  /\ (decision req f =
      Normal (VError (UserInputError (js "Unsupported file type")), VUndefined)
      <-> truthy v = true /\ extensionOk (originalname f) = false)
  /\ (truthy v = false -> attached req = Some f ->
      forall handler env d,
        route (fieldname f) handler env req d
        = route (fieldname f) handler env (withoutFile req) d).
Proof.
  intros Hu. rewrite decision_cases, Hu.
  split; [|split; [|split; [|split]]].
  - by intros ->.
  - by intros -> ->.
  - destruct (truthy v), (extensionOk (originalname f)); intuition congruence.
  - destruct (truthy v), (extensionOk (originalname f)); intuition congruence.
  - intros Hv Hf handler env d. unfold route.
    by rewrite (single_unauthenticated (fieldname f) env req d f v).
Qed.

(** C5: an unauthenticated request to [POST /img/] with a file attached
    under the field [image] leaves the disk as it was and is answered with
    the body [Image not attached]. *)
Theorem postImg_unauthenticated (env : Env) (req : Request) (d : disk)
    (f : File) (v : jsval) :
  attached req = Some f -> fieldname f = js "image" ->
  getUser_userId req = Normal v -> truthy v = false ->
  postImg env req d = (Sent (js "Image not attached"), d).
Proof.
  intros Hf Hfield Hu Hv. unfold postImg, route.
  by rewrite (single_unauthenticated (js "image") env req d f v).
Qed.

(** C10: whenever [POST /document/] reaches its handler without a file, the
    body is [Document not attached]: that is so when the request carries no
    file and when the upload of an unauthenticated request was skipped; the
    sentinel differs from the one of [POST /img/]. *)
Theorem postDocument_not_attached (env : Env) (req : Request) (d : disk) :
  (forall d', single (js "document") env req d = Next d' None ->
     postDocument env req d = (Sent (js "Document not attached"), d'))
  /\ (attached req = None ->
      postDocument env req d = (Sent (js "Document not attached"), d))
  /\ (forall f v, attached req = Some f -> fieldname f = js "document" ->
      getUser_userId req = Normal v -> truthy v = false ->
      postDocument env req d = (Sent (js "Document not attached"), d))
  /\ js "Document not attached" <> js "Image not attached".
Proof.
  unfold postDocument, route. repeat split.
  - by intros d' ->.
  - intros Hf. unfold single. by rewrite Hf.
  - intros f v Hf Hfield Hu Hv.
    by rewrite (single_unauthenticated (js "document") env req d f v).
  - discriminate.
Qed.


(** ** Storing an accepted file *)

Lemma generatedName_nonempty (env : Env) (f : File) : generatedName env f <> [].
Proof. unfold generatedName. by destruct (fieldname f). Qed.

Lemma join_nonempty (a b : jsstring) :
  a <> [] -> b <> [] ->
  Path.join (VString a) (VString b) = Normal (Path.normalize (a ++ js "/" ++ b)).
Proof. by destruct a, b. Qed.

Lemma handleFile_cases (env : Env) (d : disk) (req : Request) (f : File) :
  handleFile env d req f =
  if startsWith (mimetype f) (js "image") then
    Normal (storedIn env d f (js "./public/img/"))
  else if
    startsWith (mimetype f)
      (js "application/vnd.openxmlformats-officedocument.wordprocessingml.document")
    || startsWith (mimetype f) (js "application/msword")
    || startsWith (mimetype f) (js "application/pdf")
  then Normal (storedIn env d f (js "./public/document/"))
  else Throw (TypeError (js "ERR_INVALID_ARG_TYPE")).
Proof.
  unfold handleFile, destination, filename, storedIn.
  pose proof (generatedName_nonempty env f) as Hn. unfold generatedName in *.
  repeat case_match; try done;
    cbn [truthy bind Path.validateString]; by rewrite join_nonempty.
Qed.

(** C6: the callback [storage.filename] answers with the field name, the
    clock reading in milliseconds and the original name, joined by [-]; and
    whenever the middleware accepts an upload, the file it attaches to the
    request is the uploaded one, sits under the route's field, and carries
    that name. *)
Theorem generated_file_name (field : jsstring) (env : Env) (req : Request)
    (d : disk) :
  (forall R (f : File) (cb : callback R),
     filename env req f cb =
     cb VNull (VString (fieldname f ++ js "-" ++ numberToString (now env)
                        ++ js "-" ++ originalname f)))
  /\ (forall d' sf, single field env req d = Next d' (Some sf) ->
      attached req = Some (file sf)
      /\ fieldname (file sf) = field
      /\ sf_filename sf =
         field ++ js "-" ++ numberToString (now env) ++ js "-"
         ++ originalname (file sf)
      /\ Path.join (VString (sf_destination sf)) (VString (sf_filename sf))
         = Normal (path sf)
      /\ d' = <[Path.resolve (cwd env) (path sf) := stream (file sf)]> d).
Proof.
  split; [done|]. intros d' sf. rewrite single_cases.
  destruct (attached req) as [f|]; [|done].
  case_bool_decide; [done|]. case_bool_decide as Hfield; [|done]. simpl.
  destruct (getUser_userId req) as [v|]; [|done].
  destruct (truthy v); [|done]. destruct (extensionOk _); [|done].
  rewrite handleFile_cases. subst field.
  pose proof (generatedName_nonempty env f) as Hn.
  destruct (startsWith _ (js "image")); [|destruct (_ || _ || _); [|done]];
    unfold storedIn; intros [= <- <-]; cbn [file sf_filename sf_destination path];
    by rewrite join_nonempty.
Qed.

(** C4, as the code has it: a declared MIME type that starts neither with
    [image] nor with one of the three document types gets [false] for a
    destination, whatever the file name; no request carrying such a file
    gets a file attached, and the disk stays as it was. *)
Theorem unknown_type_rejected (f : File) :
  ~ js "image" `prefix_of` mimetype f -> ~ isDocumentType (mimetype f) ->
  (forall R req (cb : callback R), destination req f cb = cb VNull (VBool false))
  /\ (forall field env req d, attached req = Some f ->
        match single field env req d with
        | Next d' reqfile => d' = d /\ reqfile = None
        | Failed _ => True
        end)
  /\ (forall env req d, attached req = Some f ->
        (postImg env req d).2 = d /\ (postDocument env req d).2 = d).
Proof.
  intros H1 H2.
  assert (Hs : forall field env req d, attached req = Some f ->
            match single field env req d with
            | Next d' reqfile => d' = d /\ reqfile = None
            | Failed _ => True
            end).
  { intros field env req d Hf. rewrite single_cases, Hf, handleFile_cases.
    apply startsWith_not_prefix in H1. rewrite H1.
    destruct (_ || _ || _) eqn:E; [by apply isDocumentType_spec in E|].
    destruct (bool_decide _); [done|]. destruct (negb _); [done|].
    destruct (getUser_userId req) as [v|]; [|done].
    destruct (truthy v); [|done]. by destruct (extensionOk _). }
  split; [|split; [done|]].
  - intros R req cb. by apply destination_false.
  - intros env req d Hf. unfold postImg, postDocument, route.
    pose proof (Hs (js "image") env req d Hf).
    pose proof (Hs (js "document") env req d Hf).
    destruct (single (js "image") env req d), (single (js "document") env req d);
      simpl; intuition congruence.
Qed.

(** ** The matcher on the extension pattern *)

Section Matcher.
Variable fl : flags.

Lemma m_star (r : regex) (s : jsstring) (k : jsstring -> bool) :
  m fl (Star r) s k = starLoop (m fl r) k (length s) s.
Proof. reflexivity. Qed.

Lemma m_seq (a b : regex) (s : jsstring) (k : jsstring -> bool) :
  m fl (Seq a b) s k = m fl a s (fun s' => m fl b s' k).
Proof. reflexivity. Qed.

Lemma m_alt_seq (a b r : regex) (s : jsstring) (k : jsstring -> bool) :
  m fl (Seq (Alt a b) r) s k = m fl (Seq a r) s k || m fl (Seq b r) s k.
Proof. reflexivity. Qed.

Lemma starLoop_skip mr k fuel s : k s = true -> starLoop mr k fuel s = true.
Proof. intros H. destruct fuel; simpl; rewrite H; [done | apply orb_true_r]. Qed.

Lemma starLoop_dot k fuel s :
  starLoop (m fl Dot) k fuel s = true ->
  exists pre t, s = pre ++ t /\ k t = true.
Proof.
  revert s; induction fuel as [|fuel IH]; intros s; simpl.
  - intros H. by exists [], s.
  - intros [H|H]%orb_true_iff; [|by exists [], s].
    destruct s as [|d s]; [done|].
    apply andb_true_iff in H as [_ [_ H]%andb_true_iff].
    destruct (IH _ H) as (pre & t & -> & Hk). by exists (d :: pre), t.
Qed.

Lemma search_spec (r : regex) (s : jsstring) :
  search fl r s = true <->
  exists pre t, s = pre ++ t /\ m fl r t (fun _ => true) = true.
Proof.
  induction s as [|c s IH]; simpl; rewrite orb_true_iff.
  - split.
    + intros [H|H]; [by exists [], [] | done].
    + intros (pre & t & Hs & H). symmetry in Hs.
      apply app_eq_nil in Hs as [-> ->]. by left.
  - rewrite IH. split.
    + intros [H|(pre & t & -> & H)]; [by exists [], (c :: s)|].
      by exists (c :: pre), t.
    + intros (pre & t & Hs & H). destruct pre as [|c' pre]; simpl in Hs.
      * subst t. by left.
      * injection Hs as -> ->. right. by exists pre, t.
Qed.

(** A pattern that begins with [.*] matches wherever its rest does. *)
Lemma search_after_dots (r : regex) (s : jsstring) :
  search fl (Seq (Star Dot) r) s = true <->
  exists pre t, s = pre ++ t /\ m fl r t (fun _ => true) = true.
Proof.
  rewrite search_spec. split.
  - intros (pre & t & -> & H). rewrite m_seq, m_star in H.
    apply starLoop_dot in H as (pre' & t' & -> & H).
    exists (pre ++ pre'), t'. by rewrite <- app_assoc.
  - intros (pre & t & -> & H). exists pre, t. split; [done|].
    rewrite m_seq, m_star. by apply starLoop_skip.
Qed.

Lemma m_lit (w s : jsstring) (k : jsstring -> bool) :
  m fl (lit w) s k = after fl w s k.
Proof.
  unfold after. revert s k; induction w as [|c w IH]; intros s k; [done|].
  destruct w as [|c' w].
  - simpl. destruct s as [|d s]; [done|]. by destruct (_ =? _)%N.
  - change (lit (c :: c' :: w)) with (Seq (Char c) (lit (c' :: w))).
    cbn [m]. destruct s as [|d s]; [done|].
    cbn [strip]. destruct (_ =? _)%N; [|done]. apply IH.
Qed.

Lemma strip_app (a b s : jsstring) :
  strip fl (a ++ b) s = strip fl a s ≫= strip fl b.
Proof.
  revert s; induction a as [|c a IH]; intros s; [done|].
  simpl. destruct s as [|d s]; [done|]. by destruct (_ =? _)%N.
Qed.

Lemma strip_spec (w s rest : jsstring) :
  strip fl w s = Some rest <->
  exists x, s = x ++ rest
            /\ map (canonicalize fl) x = map (canonicalize fl) w.
Proof.
  revert s; induction w as [|c w IH]; intros s; simpl.
  - split.
    + intros [= ->]. by exists [].
    + intros (x & -> & Hx). apply map_eq_nil in Hx. by subst.
  - destruct s as [|d s].
    + split; [done|]. intros (x & Hs & Hx). symmetry in Hs.
      apply app_eq_nil in Hs as [-> _]. done.
    + destruct (N.eqb_spec (canonicalize fl d) (canonicalize fl c)) as [E|E].
      * rewrite IH. split.
        -- intros (x & -> & Hx). exists (d :: x). simpl. by rewrite E, Hx.
        -- intros (x & Hs & Hx). destruct x as [|d' x]; [done|].
           simpl in Hs, Hx. injection Hs as -> ->. injection Hx as _ Hx.
           by exists x.
      * split; [done|]. intros (x & Hs & Hx). destruct x as [|d' x]; [done|].
        simpl in Hs, Hx. injection Hs as -> ->. by injection Hx as ? _.
Qed.

Lemma after_app (a b s : jsstring) (k : jsstring -> bool) :
  after fl (a ++ b) s k = after fl a s (fun s' => after fl b s' k).
Proof. unfold after. rewrite strip_app. by destruct (strip fl a s). Qed.

Lemma m_seq_lit (w : jsstring) (r : regex) (s : jsstring) (k : jsstring -> bool) :
  m fl (Seq (lit w) r) s k = after fl w s (fun s' => m fl r s' k).
Proof. rewrite m_seq. apply m_lit. Qed.

(** [a b? c] matches [abc] or [ac]. *)
Lemma m_opt_lit (a b c s : jsstring) (k : jsstring -> bool) :
  m fl (Seq (lit a) (Seq (Opt (lit b)) (lit c))) s k
  = after fl (a ++ b ++ c) s k || after fl (a ++ c) s k.
Proof.
  cbn [m]. rewrite m_lit. unfold after. rewrite !strip_app.
  destruct (strip fl a s) as [s1|]; simpl; [|done].
  rewrite !m_lit, strip_app. unfold after.
  destruct (strip fl b s1) as [s2|]; simpl; [|done].
  by rewrite m_lit.
Qed.

Lemma after_eol (w s : jsstring) :
  after fl w s (fun s' => m fl Eol s' (fun _ => true)) = after fl w s (atEol fl).
Proof. unfold after. destruct (strip fl w s); [apply andb_true_r | done]. Qed.

Lemma canonicalize_lineTerminator (c : N) :
  isLineTerminator (canonicalize fl c) = isLineTerminator c.
Proof.
  unfold canonicalize, isLineTerminator.
  destruct (ignoreCase fl); [|done].
  destruct ((97 <=? c) && (c <=? 122))%N eqn:E; [|done].
  apply andb_true_iff in E as [E1%N.leb_le E2%N.leb_le].
  repeat match goal with
         | |- context [(?a =? ?b)%N] => destruct (N.eqb_spec a b); try lia
         end; done.
Qed.

Lemma canonicalize_dot (c : N) : canonicalize fl c = 46%N -> c = 46%N.
Proof.
  unfold canonicalize. destruct (ignoreCase fl); [|done].
  destruct ((97 <=? c) && (c <=? 122))%N eqn:E; [|done].
  apply andb_true_iff in E as [E1%N.leb_le E2%N.leb_le]. lia.
Qed.

End Matcher.

Lemma truthy_String_match (s : jsstring) (fl : flags) (r : regex) :
  truthy (String_match s fl r) = search fl r s.
Proof. unfold String_match. by destruct (search fl r s). Qed.

(** The rest of the pattern matches at [t] exactly when [t] begins with a
    dot and an allowed extension that stands before an end of line. *)
Lemma tail_spec (t : jsstring) :
  m extensionFlags extensionTail t (fun _ => true) = true <->
  exists e, e ∈ allowedExtensions
            /\ after extensionFlags (js "." ++ e) t (atEol extensionFlags) = true.
Proof.
  unfold extensionTail. change (Char 46) with (lit (js ".")).
  rewrite m_seq_lit.
  setoid_rewrite after_app. unfold after at 1 2.
  destruct (strip _ (js ".") t) as [t'|]; [|split; [done | by intros (? & _ & ?)]].
  rewrite !m_alt_seq, !m_seq_lit, (m_seq _ (Seq _ _) Eol), m_opt_lit, !after_eol.
  change (js "jp" ++ js "e" ++ js "g") with (js "jpeg").
  change (js "jp" ++ js "g") with (js "jpg").
  rewrite !orb_true_iff. unfold allowedExtensions. split.
  - intros H. repeat destruct H as [H|H]; eexists; (split; [|exact H]); set_solver.
  - intros (e & He & H). rewrite !elem_of_cons, elem_of_nil in He.
    repeat destruct He as [->|He]; tauto.
Qed.

Lemma after_spec (w t : jsstring) :
  after extensionFlags w t (atEol extensionFlags) = true <->
  exists x rest, t = x ++ rest /\ upper x = upper w
                 /\ atEol extensionFlags rest = true.
Proof.
  unfold after. split.
  - destruct (strip extensionFlags w t) as [rest|] eqn:E; [|done].
    apply strip_spec in E as (x & -> & Hx). intros H. by exists x, rest.
  - intros (x & rest & -> & Hx & H).
    assert (E : strip extensionFlags w (x ++ rest) = Some rest)
      by (apply strip_spec; by exists x).
    by rewrite E.
Qed.

(** ** Lines *)

Lemma atEol_multiline (s : jsstring) :
  atEol extensionFlags s = true <->
  s = [] \/ exists c s', s = c :: s' /\ isLineTerminator c = true.
Proof.
  destruct s as [|c s]; simpl.
  - split; auto.
  - split.
    + intros H. right. by exists c, s.
    + by intros [?|(? & ? & [= <- <-] & ?)].
Qed.

Lemma lines_plain (l : jsstring) : plain l -> lines l = [l].
Proof.
  induction 1 as [|c l Hc _ IH]; [done|]. simpl. by rewrite Hc, IH.
Qed.

Lemma lines_plain_app (l : jsstring) (c : N) (s : jsstring) :
  plain l -> isLineTerminator c = true -> lines (l ++ c :: s) = l :: lines s.
Proof.
  intros Hl Hc. induction Hl as [|d l Hd _ IH]; simpl.
  - by rewrite Hc.
  - by rewrite Hd, IH.
Qed.

Lemma lines_skip (p : jsstring) (c : N) (s : jsstring) :
  isLineTerminator c = true ->
  exists l0 L, lines (p ++ c :: s) = l0 :: L ++ lines s.
Proof.
  intros Hc. induction p as [|a p (l0 & L & IH)]; simpl.
  - rewrite Hc. by exists [], [].
  - rewrite IH. destruct (isLineTerminator a).
    + by exists [], (l0 :: L).
    + by exists (a :: l0), L.
Qed.

Lemma split_last_terminator (p : jsstring) :
  plain p \/
  exists p0 c p2, p = p0 ++ c :: p2 /\ isLineTerminator c = true /\ plain p2.
Proof.
  induction p as [|a p [IH|(p0 & c & p2 & -> & Hc & Hp)]].
  - left. constructor.
  - destruct (isLineTerminator a) eqn:Ha.
    + right. by exists [], a, p.
    + left. by constructor.
  - right. by exists (a :: p0), c, p2.
Qed.

Lemma lines_inv (s : jsstring) :
  exists hd tl post,
    lines s = hd :: tl /\ s = hd ++ post /\ atEol extensionFlags post = true
    /\ forall line, line ∈ tl ->
         exists pre post', s = pre ++ line ++ post'
                           /\ atEol extensionFlags post' = true.
Proof.
  induction s as [|c s (hd & tl & post & Hl & Hs & Hpost & Htl)].
  - exists [], [], []. repeat split; try done.
    intros line H. by apply elem_of_nil in H.
  - simpl. rewrite Hl. destruct (isLineTerminator c) eqn:Hc.
    + exists [], (hd :: tl), (c :: s). repeat split; try done.
      intros line [->|H]%elem_of_cons.
      * exists [c], post. by rewrite Hs at 1.
      * destruct (Htl _ H) as (pre & post' & Hs' & Hp').
        exists (c :: pre), post'. by rewrite Hs' at 1.
    + exists (c :: hd), tl, post. repeat split; try done.
      * by rewrite Hs at 1.
      * intros line H. destruct (Htl _ H) as (pre & post' & Hs' & Hp').
        exists (c :: pre), post'. by rewrite Hs' at 1.
Qed.

Lemma in_lines_inv (s line : jsstring) :
  line ∈ lines s ->
  exists pre post, s = pre ++ line ++ post /\ atEol extensionFlags post = true.
Proof.
  destruct (lines_inv s) as (hd & tl & post & Hl & Hs & Hpost & Htl).
  rewrite Hl. intros [->|H]%elem_of_cons; [by exists [], post | by apply Htl].
Qed.

(** A word without line terminators stands before an end of line exactly
    when it ends a line. *)
Lemma ends_line_iff (s x : jsstring) :
  plain x ->
  (exists pre rest, s = pre ++ x ++ rest /\ atEol extensionFlags rest = true)
  <-> (exists line, line ∈ lines s /\ x `suffix_of` line).
Proof.
  intros Hx. split.
  - intros (pre & rest & -> & Hrest).
    assert (Hin : forall p, plain p -> (p ++ x) ∈ lines ((p ++ x) ++ rest)).
    { intros p Hp. assert (plain (p ++ x)) by by apply Forall_app.
      apply atEol_multiline in Hrest as [->|(c & r & -> & Hc)].
      - rewrite app_nil_r, lines_plain by done. set_solver.
      - rewrite lines_plain_app by done. set_solver. }
    destruct (split_last_terminator pre) as [Hp|(p0 & c & p2 & -> & Hc & Hp)].
    + exists (pre ++ x). split; [|by apply suffix_app_r].
      rewrite app_assoc. by apply Hin.
    + exists (p2 ++ x). split; [|by apply suffix_app_r].
      destruct (lines_skip p0 c ((p2 ++ x) ++ rest) Hc) as (l0 & L & HL).
      rewrite <- app_assoc. simpl. rewrite (app_assoc p2 x rest), HL.
      apply elem_of_cons. right. apply elem_of_app. right. by apply Hin.
  - intros (line & Hin & (l1 & ->)).
    apply in_lines_inv in Hin as (pre & post & -> & Hpost).
    exists (pre ++ l1), post. by rewrite <- !app_assoc.
Qed.

Lemma plain_upper (x w : jsstring) : upper x = upper w -> plain w -> plain x.
Proof.
  revert w; induction x as [|c x IH]; intros [|d w] Hu Hw; try done.
  injection Hu as Hc Hu. apply Forall_cons in Hw as [Hd Hw].
  constructor; [|by eapply IH].
  by rewrite <- canonicalize_lineTerminator with (fl := extensionFlags), Hc,
       canonicalize_lineTerminator.
Qed.

Lemma allowed_plain (e : jsstring) : e ∈ allowedExtensions -> plain (js "." ++ e).
Proof.
  unfold allowedExtensions. rewrite !elem_of_cons, elem_of_nil.
  intros H. repeat destruct H as [->|H]; try done; by repeat constructor.
Qed.

(** The extension test in terms of lines. *)
Lemma extensionOk_lines (name : jsstring) :
  extensionOk name = true <->
  exists line e, line ∈ lines name /\ e ∈ allowedExtensions
                 /\ endsWithIgnoreCase line (js "." ++ e).
Proof.
  unfold extensionOk. rewrite truthy_String_match.
  change extensionPattern with (Seq (Star Dot) extensionTail).
  rewrite search_after_dots. setoid_rewrite tail_spec.
  setoid_rewrite after_spec. unfold endsWithIgnoreCase. split.
  - intros (pre & t & -> & e & He & x & rest & -> & Hx & Hrest).
    assert (Hp : plain x) by (eapply plain_upper; [done | by apply allowed_plain]).
    destruct (proj1 (ends_line_iff (pre ++ x ++ rest) x Hp)) as (line & Hl & l1 & ->);
      [by exists pre, rest|].
    exists (l1 ++ x), e. repeat split; try done.
    unfold upper in *. rewrite <- Hx, List.map_app. by apply suffix_app_r.
  - intros (line & e & Hl & He & (k & Hk)).
    unfold upper in Hk. apply List.map_eq_app in Hk as (l1 & x & -> & _ & Hx).
    assert (Hp : plain x) by (eapply plain_upper; [done | by apply allowed_plain]).
    destruct (proj2 (ends_line_iff name x Hp)) as (pre & rest & -> & Hrest);
      [exists (l1 ++ x); split; [done | by apply suffix_app_r]|].
    exists pre, (x ++ rest). split; [done|]. exists e. split; [done|].
    by exists x, rest.
Qed.

(** ** The extension test

    The sample name of two lines does not end in an allowed extension. *)
Lemma twoLine_no_extension :
  ~ exists e, e ∈ allowedExtensions /\ endsWithIgnoreCase twoLineName (js "." ++ e).
Proof.
  intros (e & He & H). unfold allowedExtensions in He.
  rewrite !elem_of_cons, elem_of_nil in He.
  unfold endsWithIgnoreCase in H.
  repeat destruct He as [->|He]; try done;
    match type of H with
    | ?P => apply (bool_decide_eq_false_1 P); [by vm_compute | exact H]
    end.
Qed.


(** *** Names of one line *)

Lemma extension_None (name : jsstring) : extension name = None <-> 46%N ∉ name.
Proof.
  induction name as [|c name IH]; simpl.
  - split; [intros _; apply not_elem_of_nil | done].
  - rewrite not_elem_of_cons. destruct (extension name).
    + split; [done|]. intros [_ H]. by apply IH in H.
    + destruct (N.eqb_spec c 46) as [->|Hc].
      * split; [done|]. by intros [? _].
      * split; [|done]. intros _. split; [done | by apply IH].
Qed.

Lemma extension_spec (name x : jsstring) :
  extension name = Some x <->
  exists pre, name = pre ++ 46%N :: x /\ 46%N ∉ x.
Proof.
  induction name as [|c name IH]; simpl.
  - split; [done|]. intros (pre & H & _). by destruct pre.
  - destruct (extension name) as [e|] eqn:E.
    + split.
      * intros [= ->]. destruct (proj1 IH eq_refl) as (pre & -> & Hx).
        by exists (c :: pre).
      * intros (pre & H & Hx). destruct pre as [|c' pre]; simpl in H.
        -- injection H as -> ->. apply extension_None in Hx. congruence.
        -- injection H as -> ->. f_equal. symmetry.
           assert (Some e = Some x) as [= ->]; [|done].
           apply IH. by exists pre.
    + apply extension_None in E. destruct (N.eqb_spec c 46) as [->|Hc].
      * split.
        -- intros [= ->]. by exists [].
        -- intros (pre & H & Hx). destruct pre as [|c' pre]; simpl in H.
           ++ by injection H as ->.
           ++ injection H as <- ->. exfalso. apply E. apply elem_of_app. right. apply elem_of_cons. by left.
      * split; [done|]. intros (pre & H & Hx).
        destruct pre as [|c' pre]; simpl in H.
        -- by injection H as -> ->.
        -- injection H as -> ->. exfalso. apply E. apply elem_of_app. right. apply elem_of_cons. by left.
Qed.

Lemma upper_no_dot (x e : jsstring) :
  e ∈ allowedExtensions -> upper x = upper e -> 46%N ∉ x.
Proof.
  intros He Hx Hin.
  assert (H : 46%N ∈ upper e).
  { rewrite <- Hx. unfold upper. apply list_elem_of_fmap. by exists 46%N. }
  unfold allowedExtensions in He. rewrite !elem_of_cons, elem_of_nil in He.
  repeat destruct He as [->|He]; try done;
    match type of H with
    | ?P => apply (bool_decide_eq_false_1 P); [by vm_compute | exact H]
    end.
Qed.

(** On a file name of one line the test is the allow-list on the
    extension. *)
Lemma extensionOk_one_line (name : jsstring) :
  plain name -> (extensionOk name = true <-> hasAllowedExtension name).
Proof.
  intros Hp. rewrite extensionOk_lines, lines_plain by done.
  unfold hasAllowedExtension, endsWithIgnoreCase. split.
  - intros (line & e & ->%list_elem_of_singleton & He & (k & Hk)).
    unfold upper in Hk. apply List.map_eq_app in Hk as (l1 & x' & -> & _ & Hx).
    destruct x' as [|d x]; [done|]. injection Hx as Hd Hx.
    apply canonicalize_dot in Hd as ->.
    exists x, e. repeat split; try done.
    apply extension_spec. exists l1. split; [done|]. by eapply upper_no_dot.
  - intros (x & e & (pre & -> & _)%extension_spec & He & Hx).
    exists (pre ++ 46%N :: x), e. repeat split; try done.
    + by apply list_elem_of_singleton.
    + unfold upper in *. change (46%N :: x) with (js "." ++ x).
      rewrite !List.map_app, Hx. by apply suffix_app_r.
Qed.

(** On names of one line the filter is the allow-list: a signed-in upload
    whose extension is not allowed gets the error. *)
Lemma one_line_extension_gate (req : Request) (f : File) (v : jsval) :
  getUser_userId req = Normal v -> truthy v = true ->
  plain (originalname f) -> ~ hasAllowedExtension (originalname f) ->
  decision req f =
  Normal (VError (UserInputError (js "Unsupported file type")), VUndefined).
Proof.
  intros Hu Hv Hp Hx. rewrite decision_cases, Hu, Hv.
  destruct (extensionOk (originalname f)) eqn:E; [|done].
  by apply extensionOk_one_line in E.
Qed.

(** C2 at the name of two lines: its extension is [exe], which is not
    allowed, and yet the filter of a signed-in request accepts the file and
    [POST /img/] stores it. *)
Theorem two_line_name_accepted :
  extension twoLineName = Some (js "exe")
  /\ ~ hasAllowedExtension twoLineName
  /\ decision (signedIn twoLineFile) twoLineFile = Normal (VNull, VBool true)
  /\ postImg env0 (signedIn twoLineFile) ∅
     = (Sent (js "img/image-1700000000000-a.png%0Ab.exe"),
        <[js "/app/public/img/image-1700000000000-a.png" ++ [10%N] ++ js "b.exe"
          := [1; 2; 3]%N]> ∅).
Proof.
  split; [by vm_compute|]. split; [|split; by vm_compute].
  intros (x & e & Hx & He & Hu).
  vm_compute in Hx. injection Hx as <-.
  unfold allowedExtensions in He. rewrite !elem_of_cons, elem_of_nil in He.
  repeat destruct He as [->|He]; try done; by vm_compute in Hu.
Qed.

(** The extension of the sample name of two lines is not on the
    allow-list. *)
Lemma twoLine_not_allowed : ~ hasAllowedExtension (originalname twoLineFile).
Proof.
  intros (x & e & Hx & He & Hu).
  vm_compute in Hx. injection Hx as <-.
  unfold allowedExtensions in He. rewrite !elem_of_cons, elem_of_nil in He.
  repeat destruct He as [->|He]; try done; by vm_compute in Hu.
Qed.

(** C1 at the name of two lines sent by a signed-in user: an identity is
    present and the extension of the file name, [exe], fails the allow-list,
    yet the filter raises no [Unsupported file type] error: its decision is
    not the error call, with every callback its first call is
    [cb(null, true)] (the error call is made only when that call itself
    throws), and the middleware of [POST /img/] passes the request on with
    the file attached instead of giving it up with the error. *)
Theorem two_line_name_no_error :
  getUser_userId (signedIn twoLineFile) = Normal (VNumber 7)
  /\ truthy (VNumber 7) = true
  /\ ~ hasAllowedExtension (originalname twoLineFile)
  /\ decision (signedIn twoLineFile) twoLineFile
     <> Normal (VError (UserInputError (js "Unsupported file type")), VUndefined)
  /\ (forall R (cb : callback R),
        fileFilter (signedIn twoLineFile) twoLineFile cb
        = tryCatch (cb VNull (VBool true)) (fun e => cb (VError e) VUndefined))
  /\ (exists d' sf,
        single (js "image") env0 (signedIn twoLineFile) ∅ = Next d' (Some sf)
        /\ file sf = twoLineFile).
Proof.
  assert (Hd : decision (signedIn twoLineFile) twoLineFile
               = Normal (VNull, VBool true)) by (by vm_compute).
  split; [done|]. split; [done|]. split; [apply twoLine_not_allowed|].
  split; [by rewrite Hd|]. split.
  - intros R cb. by rewrite fileFilter_decision, Hd.
  - eexists _, _. split; [by vm_compute | done].
Qed.

(** ** The reference sent back *)

Lemma indexOfFrom_spec (needle s : jsstring) (i : Z) :
  indexOfFrom s needle i = (-1)%Z \/
  exists k, (k <= length s)%nat
            /\ indexOfFrom s needle i = (i + Z.of_nat k)%Z
            /\ startsWith (drop k s) needle = true.
Proof.
  revert i; induction s as [|c s IH]; intros i; simpl.
  - destruct (startsWith [] needle) eqn:E; [|by left].
    right. exists 0%nat. repeat split; [lia | lia | done].
  - destruct (startsWith (c :: s) needle) eqn:E.
    + right. exists 0%nat. repeat split; [lia | lia | done].
    + destruct (IH (i + 1)%Z) as [H|(k & Hk & H & Hs)]; [by left|].
      right. exists (S k). repeat split; [lia | lia | done].
Qed.

(** Where the needle occurs, the slice taken at its index begins with it. *)
Lemma slice_indexOf (s needle : jsstring) :
  indexOf s needle <> (-1)%Z ->
  needle `prefix_of` slice s (indexOf s needle).
Proof.
  unfold indexOf. intros Hi.
  destruct (indexOfFrom_spec needle s 0) as [H|(k & Hk & H & Hs)]; [done|].
  rewrite H. unfold slice.
  replace (Z.to_nat _) with k.
  - by apply startsWith_prefix.
  - destruct (Z.ltb_spec (0 + Z.of_nat k) 0); lia.
Qed.

(** Where it does not occur, the slice is the last character. *)
Lemma slice_not_found (s : jsstring) :
  slice s (-1) = drop (length s - 1) s.
Proof. unfold slice. simpl. f_equal. lia. Qed.

(** C7 at a PDF sent to [POST /img/] by a signed-in user: the file is stored
    in the document directory, the file URL of its path holds no [img], and
    the body sent back is the last character of the URL, [f], which begins
    with neither directory name. *)
Theorem pdf_on_img_route :
  postImg env0 (signedIn pdfAsImage) ∅
  = (Sent (js "f"),
     <[js "/app/public/document/image-1700000000000-report.pdf"
       := [1; 2; 3]%N]> ∅)
  /\ indexOf (js "file:///app/public/document/image-1700000000000-report.pdf")
       (js "img") = (-1)%Z
  /\ ~ js "document" `prefix_of` js "f"
  /\ ~ js "img" `prefix_of` js "f".
Proof.
  split; [by vm_compute|]. split; [by vm_compute|].
  split; apply startsWith_not_prefix; by vm_compute.
Qed.

(** ** The clock reading in the generated name *)

Lemma uint_digits (d : Decimal.uint) :
  Forall isDigit (js (NilEmpty.string_of_uint d)).
Proof.
  unfold isDigit, js. induction d; simpl; constructor; try done; by vm_compute.
Qed.

Lemma numberToString_digits (n : Z) :
  (0 <= n)%Z -> Forall isDigit (numberToString n).
Proof.
  intros Hn. unfold numberToString.
  destruct n as [|p|p]; [| |lia].
  - repeat constructor; by vm_compute.
  - simpl. unfold NilZero.string_of_uint.
    pose proof (uint_digits (Pos.to_uint p)).
    destruct (Pos.to_uint p); try done. repeat constructor; by vm_compute.
Qed.

(** * Further properties of the upload path *)

(** ** Admission and the disk *)

(** What [single] answers when it attaches a file. *)
Lemma single_stored (field : jsstring) (env : Env) (req : Request)
    (d d' : disk) (sf : StoredFile) :
  single field env req d = Next d' (Some sf) ->
  exists f v,
    attached req = Some f /\ fieldname f = field /\ originalname f <> []
    /\ getUser_userId req = Normal v /\ truthy v = true
    /\ extensionOk (originalname f) = true
    /\ handleFile env d req f = Normal (Next d' (Some sf)).
Proof.
  rewrite single_cases. destruct (attached req) as [f|]; [|done].
  case_bool_decide as Hn; [done|]. case_bool_decide as Hfield; [|done]. simpl.
  destruct (getUser_userId req) as [v|] eqn:Hu; [|done].
  destruct (truthy v) eqn:Hv; [|done].
  destruct (extensionOk _) eqn:Hx; [|done].
  destruct (handleFile env d req f) as [o|] eqn:Hh; [|done].
  intros ->. by exists f, v.
Qed.

Lemma single_disk (field : jsstring) (env : Env) (req : Request)
    (d d' : disk) :
  single field env req d = Next d' None -> d' = d.
Proof.
  rewrite single_cases. destruct (attached req) as [f|]; [|congruence].
  rewrite handleFile_cases. unfold storedIn.
  repeat case_match; congruence.
Qed.

Lemma handleFile_stored (env : Env) (req : Request)
    (d d' : disk) (f : File) (sf : StoredFile) :
  handleFile env d req f = Normal (Next d' (Some sf)) ->
  exists dir,
    storedIn env d f dir = Next d' (Some sf)
    /\ (js "image" `prefix_of` mimetype f /\ dir = js "./public/img/"
        \/ ~ js "image" `prefix_of` mimetype f /\ isDocumentType (mimetype f)
           /\ dir = js "./public/document/").
Proof.
  rewrite handleFile_cases.
  destruct (startsWith _ (js "image")) eqn:E1.
  - intros H. exists (js "./public/img/"). split; [congruence|]. left.
    split; [by apply startsWith_prefix | done].
  - destruct (_ || _ || _) eqn:E2; [|done].
    intros H. exists (js "./public/document/"). split; [congruence|]. right.
    split; [by apply startsWith_not_prefix|]. split; [|done].
    by apply isDocumentType_spec.
Qed.

(** A route writes to the disk only for an admitted upload: whenever the
    disk after a request differs from the disk before it, the request
    carried a file under the route's field, the session yielded a truthy
    identity, the pattern of the filter matched the original name, and the
    declared type begins with [image] or with a document type. *)
Theorem write_requires_admission (field : jsstring)
    (handler : Env -> option StoredFile -> response)
    (env : Env) (req : Request) (d : disk) :
  (route field handler env req d).2 <> d ->
  exists f v,
    attached req = Some f /\ fieldname f = field
    /\ getUser_userId req = Normal v /\ truthy v = true
    /\ extensionOk (originalname f) = true
    /\ (js "image" `prefix_of` mimetype f \/ isDocumentType (mimetype f)).
Proof.
  unfold route. destruct (single field env req d) as [d' [sf|]|err] eqn:Hs;
    simpl; [| |done].
  - intros _. apply single_stored in Hs
      as (f & v & Hf & Hfield & _ & Hu & Hv & Hx & Hh).
    apply handleFile_stored in Hh as (dir & _ & Hdir).
    exists f, v. repeat split; try done.
    destruct Hdir as [[? _]|(_ & ? & _)]; auto.
  - intros H. by apply single_disk in Hs.
Qed.

(** ** Exceptions of the session helper *)

(** When the session helper throws, the [catch] block hands that very error
    to the callback, and the middleware gives the request up with it: the
    route handler does not run and the disk stays as it was. *)
Theorem fileFilter_forwards_exception (req : Request) (f : File) (e : jsError) :
  getUser_userId req = Throw e ->
  (forall R (cb : callback R), fileFilter req f cb = cb (VError e) VUndefined)
  /\ (attached req = Some f -> originalname f <> [] ->
      forall handler env d,
        route (fieldname f) handler env req d = (NotHandled (VError e), d)).
Proof.
  intros Hu. split.
  - intros R cb. unfold fileFilter. by rewrite Hu.
  - intros Hf Hn handler env d. unfold route.
    rewrite single_cases, Hf, Hu.
    rewrite (bool_decide_eq_false_2 _ Hn), (bool_decide_eq_true_2 _ eq_refl).
    done.
Qed.

(** ** The buckets *)

Lemma image_not_document (mime : jsstring) :
  js "image" `prefix_of` mime -> ~ isDocumentType mime.
Proof.
  intros [k ->] (t & Ht & [k' Hk]).
  unfold documentTypes in Ht. rewrite !elem_of_cons, elem_of_nil in Ht.
  destruct Ht as [->|[->|[->|[]]]]; by vm_compute in Hk.
Qed.

(** The three answers of [storage.destination], each with the exact
    condition on the declared type under which it is given; the image and
    document conditions exclude each other, so the order of the tests does
    not matter. *)
Theorem destination_trichotomy (req : Request) (f : File) :
  (destination req f record = Normal (VNull, VString (js "./public/img/"))
   <-> js "image" `prefix_of` mimetype f)
  /\ (destination req f record = Normal (VNull, VString (js "./public/document/"))
      <-> isDocumentType (mimetype f))
  /\ (destination req f record = Normal (VNull, VBool false)
      <-> ~ js "image" `prefix_of` mimetype f /\ ~ isDocumentType (mimetype f))
  /\ ~ (js "image" `prefix_of` mimetype f /\ isDocumentType (mimetype f)).
Proof.
  pose proof (image_not_document (mimetype f)) as Hex.
  unfold destination, record.
  destruct (startsWith _ (js "image")) eqn:E1.
  - apply startsWith_prefix in E1. specialize (Hex E1).
    repeat split; try done; try tauto.
  - apply startsWith_not_prefix in E1.
    destruct (_ || _ || _) eqn:E2.
    + apply isDocumentType_spec in E2. repeat split; try done; tauto.
    + assert (~ isDocumentType (mimetype f))
        by (intros H; apply isDocumentType_spec in H; congruence).
      repeat split; try done; tauto.
Qed.

(** The [catch] block: when the callback takes an error without throwing,
    the filter does not throw, whatever the session helper and the other
    calls of the callback do. *)
Theorem fileFilter_never_throws R (req : Request) (f : File) (cb : callback R) :
  (forall e, exists r, cb (VError e) VUndefined = Normal r) ->
  exists r, fileFilter req f cb = Normal r.
Proof.
  intros Hcb. rewrite fileFilter_decision, decision_cases.
  destruct (getUser_userId req) as [u|e]; [|apply Hcb].
  destruct (truthy u); [destruct (extensionOk _)|]; try apply Hcb.
  - destruct (cb VNull (VBool true)) as [r|e]; simpl; [by exists r | apply Hcb].
  - destruct (cb VNull (VBool false)) as [r|e]; simpl; [by exists r | apply Hcb].
Qed.

(** ** The extension test on names of one line *)


(** ** Letter case *)

Lemma lines_upper (s : jsstring) : lines (upper s) = map upper (lines s).
Proof.
  induction s as [|c s IH]; [done|].
  cbn [upper map lines]. fold (upper s).
  rewrite canonicalize_lineTerminator, IH.
  destruct (isLineTerminator c); [done|]. by destruct (lines s).
Qed.

Lemma upper_idemp (s : jsstring) : upper (upper s) = upper s.
Proof.
  unfold upper. rewrite List.map_map. apply List.map_ext. intros c.
  unfold canonicalize. simpl.
  destruct ((97 <=? c) && (c <=? 122))%N eqn:E; [|by rewrite E].
  apply andb_true_iff in E as [E1%N.leb_le E2%N.leb_le].
  destruct ((97 <=? c - 32) && (c - 32 <=? 122))%N eqn:E'; [|done].
  apply andb_true_iff in E' as [E3%N.leb_le E4%N.leb_le]. lia.
Qed.

Lemma extensionOk_upper (s : jsstring) : extensionOk (upper s) = extensionOk s.
Proof.
  apply eq_true_iff_eq. rewrite !extensionOk_lines, lines_upper.
  unfold endsWithIgnoreCase. split.
  - intros (line & e & Hl & He & Hs).
    apply list_elem_of_fmap in Hl as (l0 & -> & Hl0).
    rewrite upper_idemp in Hs. by exists l0, e.
  - intros (line & e & Hl & He & Hs). exists (upper line), e.
    split; [apply list_elem_of_fmap; by exists line|].
    split; [done|]. by rewrite upper_idemp.
Qed.

(** The [i] flag: two original names that differ only in the case of ASCII
    letters get the same extension test and the same behaviour of the
    filter, with any session and callback. *)
Theorem fileFilter_ignores_case R (req : Request) (f1 f2 : File)
    (cb : callback R) :
  upper (originalname f1) = upper (originalname f2) ->
  extensionOk (originalname f1) = extensionOk (originalname f2)
  /\ fileFilter req f1 cb = fileFilter req f2 cb.
Proof.
  intros Hn.
  assert (Hx : extensionOk (originalname f1) = extensionOk (originalname f2))
    by by rewrite <- (extensionOk_upper (originalname f1)), Hn, extensionOk_upper.
  split; [done|].
  rewrite !fileFilter_decision, !decision_cases. by rewrite Hx.
Qed.

(** ** Paths *)

Lemma segments_nonempty (p : jsstring) : Path.segments p <> [].
Proof.
  induction p as [|c p IH]; simpl; [done|].
  destruct (c =? 47)%N; [done|]. by destruct (Path.segments p).
Qed.

Lemma segments_app_sep (a b : jsstring) :
  Path.segments (a ++ 47%N :: b) = Path.segments a ++ Path.segments b.
Proof.
  induction a as [|c a IH]; simpl; [done|].
  rewrite IH. destruct (c =? 47)%N; [done|].
  destruct (Path.segments a) eqn:E; [by apply segments_nonempty in E | done].
Qed.

Lemma segments_plain (s : jsstring) : 47%N ∉ s -> Path.segments s = [s].
Proof.
  induction s as [|c s IH]; simpl; intros H; [done|].
  apply not_elem_of_cons in H as [H1 H2]. rewrite IH by done.
  destruct (c =? 47)%N eqn:E; [apply N.eqb_eq in E; congruence | done].
Qed.

Lemma resolveDots_ordinary (above : bool) (seg : jsstring)
    (rest acc : list jsstring) :
  ordinary seg ->
  Path.resolveDots above (seg :: rest) acc
  = Path.resolveDots above rest (seg :: acc).
Proof.
  intros (H1 & H2 & H3 & _). simpl.
  by rewrite (bool_decide_eq_false_2 _ H1), (bool_decide_eq_false_2 _ H2),
    (bool_decide_eq_false_2 _ H3).
Qed.

Lemma resolveDots_prefix (above : bool) (A : list jsstring) :
  forall acc, exists acc',
    forall B, Path.resolveDots above (A ++ B) acc = Path.resolveDots above B acc'.
Proof.
  induction A as [|seg A IH]; intros acc; [by exists acc|]. simpl.
  destruct (bool_decide (seg = []) || bool_decide (seg = js ".")); [apply IH|].
  destruct (bool_decide (seg = js "..")); [|apply IH].
  destruct acc as [|top acc]; [destruct above; apply IH|].
  destruct (bool_decide (top = js "..")); apply IH.
Qed.

Lemma joinSegments_snoc (Y : list jsstring) (b : jsstring) :
  Y <> [] -> Path.joinSegments (Y ++ [b]) = Path.joinSegments Y ++ js "/" ++ b.
Proof.
  induction Y as [|y Y IH]; [done|]. intros _.
  destruct Y as [|y' Y]; [done|].
  change (Path.joinSegments ((y :: y' :: Y) ++ [b]))
    with (y ++ js "/" ++ Path.joinSegments ((y' :: Y) ++ [b])).
  rewrite IH by done.
  change (Path.joinSegments (y :: y' :: Y))
    with (y ++ js "/" ++ Path.joinSegments (y' :: Y)).
  by rewrite <- !app_assoc.
Qed.

Lemma ordinary_no_sep_end (a s : jsstring) :
  ordinary s -> Path.endsWithSep (a ++ s) = false.
Proof.
  intros (Hn & _ & _ & Hs). unfold Path.endsWithSep.
  destruct (last (a ++ s)) as [c|] eqn:E; [|done].
  rewrite last_app in E. destruct (last s) as [c'|] eqn:E'.
  - injection E as <-. apply last_Some_elem_of in E'.
    destruct (c' =? 47)%N eqn:E2; [|done]. apply N.eqb_eq in E2. congruence.
  - apply last_None in E'. congruence.
Qed.

Lemma ordinary_literal (s : jsstring) :
  s <> [] -> s <> js "." -> s <> js ".." -> 47%N ∉ s -> ordinary s.
Proof. by repeat split. Qed.

Lemma resolveDots_all_ordinary (above : bool) (S rest acc : list jsstring) :
  Forall ordinary S ->
  Path.resolveDots above (S ++ rest) acc
  = Path.resolveDots above rest (rev S ++ acc).
Proof.
  intros H. revert acc. induction H as [|seg S Hseg _ IH]; intros acc; [done|].
  change ((seg :: S) ++ rest) with (seg :: (S ++ rest)).
  rewrite resolveDots_ordinary, IH by done.
  simpl. by rewrite <- app_assoc.
Qed.

Lemma joinSegments_nonempty (Y : list jsstring) (s : jsstring) :
  s <> [] -> s ∈ Y -> Path.joinSegments Y <> [].
Proof.
  intros Hs. induction Y as [|y Y IH]; [by intros ?%elem_of_nil|].
  intros [Heq|H]%elem_of_cons.
  - subst y. destruct Y; [done|]. by destruct s.
  - destruct Y as [|y' Y]; [by apply elem_of_nil in H|].
    change (Path.joinSegments (y :: y' :: Y))
      with (y ++ js "/" ++ Path.joinSegments (y' :: Y)).
    intros [_ [? _]%app_eq_nil]%app_eq_nil. done.
Qed.

(** Resolving a relative path of ordinary segments, and one more ordinary
    segment below it. *)
Lemma resolve_child (cwd p c : jsstring) :
  Path.isAbsolute p = false -> p <> [] ->
  Forall ordinary (Path.segments p) -> ordinary c ->
  Path.resolve cwd (p ++ js "/" ++ c) = Path.resolve cwd p ++ js "/" ++ c.
Proof.
  intros Hrel Hp Hsegs Hc.
  assert (Hrel' : Path.isAbsolute (p ++ js "/" ++ c) = false).
  { destruct p as [|x p]; [done|]. unfold Path.isAbsolute in *. simpl in *.
    by destruct (x =? 47)%N. }
  assert (Hseg1 : Path.segments (p ++ js "/" ++ c) = Path.segments p ++ [c]).
  { change (p ++ js "/" ++ c) with (p ++ 47%N :: c).
    rewrite segments_app_sep, (segments_plain c); [done|apply Hc]. }
  destruct (resolveDots_prefix (negb (false || Path.isAbsolute cwd))
              (Path.segments cwd) []) as [acc Hacc].
  assert (Hfull : forall q, Path.segments (cwd ++ js "/" ++ q ++ js "/")
                            = Path.segments cwd ++ Path.segments q ++ [[]]).
  { intros q. change (cwd ++ js "/" ++ q ++ js "/")
      with (cwd ++ 47%N :: (q ++ 47%N :: [])).
    by rewrite !segments_app_sep. }
  assert (Hq : forall q, Forall ordinary (Path.segments q) ->
            Path.normalizeString (cwd ++ js "/" ++ q ++ js "/")
              (negb (false || Path.isAbsolute cwd))
            = Path.joinSegments (rev acc ++ Path.segments q)).
  { intros q Hqs. unfold Path.normalizeString.
    rewrite Hfull, Hacc, resolveDots_all_ordinary by done.
    simpl. by rewrite rev_app_distr, rev_involutive. }
  assert (Hsegs' : Forall ordinary (Path.segments (p ++ js "/" ++ c))).
  { rewrite Hseg1. apply Forall_app. split; [done|]. by constructor. }
  assert (Hne : Path.joinSegments (rev acc ++ Path.segments p) <> []).
  { destruct (Path.segments p) as [|s0 S] eqn:E; [by apply segments_nonempty in E|].
    apply (joinSegments_nonempty _ s0).
    - apply Forall_cons in Hsegs as [Hs0 _]. apply Hs0.
    - apply elem_of_app. right. by left. }
  assert (Hm : forall q : jsstring, q <> [] ->
            match q with
            | [] => cwd ++ js "/"
            | _ => cwd ++ js "/" ++ q ++ js "/"
            end = cwd ++ js "/" ++ q ++ js "/") by (by intros [|? ?]).
  assert (Hp' : p ++ js "/" ++ c <> []) by (by destruct p).
  unfold Path.resolve. rewrite Hrel, Hrel'. cbv zeta.
  rewrite !Hm, !Hq by done. rewrite Hseg1, app_assoc, joinSegments_snoc.
  - destruct (false || Path.isAbsolute cwd).
    + by rewrite <- !app_assoc.
    + by destruct (Path.joinSegments (rev acc ++ Path.segments p)).
  - destruct (Path.segments p) eqn:E; [by apply segments_nonempty in E|].
    by destruct (rev acc).
Qed.

Lemma resolve_public (cwd dirname name : jsstring) :
  ordinary dirname -> ordinary name ->
  Path.resolve cwd (js "public/" ++ dirname ++ js "/" ++ name)
  = Path.resolve cwd (js "public") ++ js "/" ++ dirname ++ js "/" ++ name.
Proof.
  intros Hd Hn.
  assert (Hp : ordinary (js "public")).
  { apply ordinary_literal; try done.
    apply (bool_decide_eq_false_1 (47%N ∈ js "public")). by vm_compute. }
  assert (Hs : Path.segments (js "public") = [js "public"])
    by (apply segments_plain, Hp).
  change (js "public/" ++ dirname ++ js "/" ++ name)
    with ((js "public" ++ js "/" ++ dirname) ++ js "/" ++ name).
  rewrite resolve_child; try done.
  - rewrite resolve_child; try done.
    + by rewrite <- !app_assoc.
    + rewrite Hs. by repeat (apply Forall_cons_2 || apply Forall_nil_2).
  - change (js "public" ++ js "/" ++ dirname) with (js "public" ++ 47%N :: dirname).
    rewrite segments_app_sep, Hs, (segments_plain dirname) by apply Hd.
    by repeat (apply Forall_cons_2 || apply Forall_nil_2).
Qed.

(** What [path.join] makes of a destination directory and a file name. *)
Lemma normalize_stored (dirname name : jsstring) :
  ordinary dirname -> ordinary name ->
  Path.normalize ((js "./public/" ++ dirname ++ js "/") ++ js "/" ++ name)
  = js "public/" ++ dirname ++ js "/" ++ name.
Proof.
  intros Hd Hn.
  assert (Hp : ordinary (js "public")).
  { apply ordinary_literal; try done.
    apply (bool_decide_eq_false_1 (47%N ∈ js "public")). by vm_compute. }
  assert (Hseg : Path.segments
            ((js "./public/" ++ dirname ++ js "/") ++ js "/" ++ name)
          = [js "."; js "public"; dirname; []; name]).
  { rewrite <- !app_assoc.
    change (js "./public/" ++ dirname ++ js "/" ++ js "/" ++ name)
      with (js "." ++ 47%N :: js "public" ++ 47%N :: dirname ++ 47%N
            :: [] ++ 47%N :: name).
    rewrite !segments_app_sep.
    rewrite (segments_plain dirname), (segments_plain name) by (apply Hd || apply Hn).
    done. }
  assert (He : Path.endsWithSep
            ((js "./public/" ++ dirname ++ js "/") ++ js "/" ++ name) = false).
  { rewrite (app_assoc _ (js "/") name). by apply ordinary_no_sep_end. }
  unfold Path.normalize. rewrite He.
  change (Path.isAbsolute ((js "./public/" ++ dirname ++ js "/") ++ js "/" ++ name))
    with false.
  unfold Path.normalizeString. rewrite Hseg.
  change (Path.resolveDots (negb false) [js "."; js "public"; dirname; []; name] [])
    with (Path.resolveDots true ([js "public"; dirname] ++ [[]; name]) []).
  rewrite resolveDots_all_ordinary by (by repeat (apply Forall_cons_2 || apply Forall_nil_2)).
  change (Path.resolveDots true [[]; name] (rev [js "public"; dirname] ++ []))
    with (Path.resolveDots true ([name] ++ []) [dirname; js "public"]).
  rewrite resolveDots_all_ordinary by (by repeat (apply Forall_cons_2 || apply Forall_nil_2)).
  change (Path.resolveDots true [] (rev [name] ++ [dirname; js "public"]))
    with [js "public"; dirname; name].
  change (Path.joinSegments [js "public"; dirname; name])
    with (js "public/" ++ dirname ++ js "/" ++ name).
  change ((js "./public/" ++ dirname ++ js "/") ++ js "/" ++ name)
    with (46%N :: 47%N :: (js "public/" ++ dirname ++ js "/") ++ js "/" ++ name).
  done.
Qed.

(** ** File URLs *)

Lemma codePoints_app_ascii (c : N) (a b : jsstring) :
  (c < 55296)%N ->
  Url.codePoints (a ++ c :: b) = Url.codePoints a ++ c :: Url.codePoints b.
Proof.
  intros Hc.
  assert (H0 : Url.codePoints (c :: b) = c :: Url.codePoints b).
  { cbn [Url.codePoints].
    destruct (55296 <=? c)%N eqn:E1; [apply N.leb_le in E1; lia|].
    destruct (56320 <=? c)%N eqn:E2; [apply N.leb_le in E2; lia|]. done. }
  assert (H : forall n a, (length a <= n)%nat ->
            Url.codePoints (a ++ c :: b) = Url.codePoints a ++ c :: Url.codePoints b).
  { induction n as [|n IH]; intros [|x a'] Hn; simpl in Hn;
      try lia; try exact H0.
    change ((x :: a') ++ c :: b) with (x :: (a' ++ c :: b)).
    cbn [Url.codePoints].
    destruct ((55296 <=? x) && (x <=? 56319))%N.
    - destruct a' as [|y a'']. 
      + change ([] ++ c :: b) with (c :: b). cbv iota.
        destruct ((56320 <=? c) && (c <=? 57343))%N eqn:E.
        * apply andb_true_iff in E as [E%N.leb_le _]. lia.
        * by rewrite H0.
      + change ((y :: a'') ++ c :: b) with (y :: (a'' ++ c :: b)). cbv iota.
        destruct ((56320 <=? y) && (y <=? 57343))%N.
        * rewrite (IH a'') by (simpl in Hn; lia). done.
        * change (y :: (a'' ++ c :: b)) with ((y :: a'') ++ c :: b).
          rewrite (IH (y :: a'')) by (simpl in Hn |- *; lia). done.
    - destruct ((56320 <=? x) && (x <=? 57343))%N;
        rewrite (IH a') by lia; done. }
  by apply (H (length a)).
Qed.

Lemma encoded_app_sep (a b : jsstring) :
  encoded (a ++ 47%N :: b) = encoded a ++ 47%N :: encoded b.
Proof.
  unfold encoded. rewrite codePoints_app_ascii by lia.
  rewrite List.map_app, concat_app. done.
Qed.

Lemma fileURL_stored (cwd dirname name : jsstring) :
  ordinary dirname -> ordinary name -> encoded dirname = dirname ->
  Url.pathToFileURL cwd (js "public/" ++ dirname ++ js "/" ++ name)
  = Url.pathToFileURL cwd (js "public") ++ js "/" ++ dirname ++ js "/"
    ++ encoded name.
Proof.
  intros Hd Hn He. unfold Url.pathToFileURL.
  rewrite (app_assoc (js "public/")), (app_assoc _ (js "/") name).
  rewrite ordinary_no_sep_end by done.
  rewrite <- !app_assoc.
  change (Path.endsWithSep (js "public")) with false. cbv zeta. simpl andb.
  cbv iota.
  rewrite resolve_public by done.
  fold (encoded (Path.resolve cwd (js "public") ++ js "/" ++ dirname ++ js "/" ++ name)).
  fold (encoded (Path.resolve cwd (js "public"))).
  change (Path.resolve cwd (js "public") ++ js "/" ++ dirname ++ js "/" ++ name)
    with (Path.resolve cwd (js "public") ++ 47%N :: dirname ++ 47%N :: name).
  by rewrite !encoded_app_sep, He.
Qed.

(** ** The reference cut out of the URL *)

Lemma startsWith_app_sep (c : N) (needle U T : jsstring) :
  c ∉ needle ->
  startsWith (U ++ c :: T) needle = true -> startsWith U needle = true.
Proof.
  revert U. induction needle as [|n ns IH]; intros U Hc; [done|].
  apply not_elem_of_cons in Hc as [Hc1 Hc2].
  destruct U as [|u U]; simpl.
  - intros [E%N.eqb_eq _]%andb_true_iff. congruence.
  - intros [E H]%andb_true_iff. rewrite E. simpl. by apply IH.
Qed.

Lemma indexOfFrom_app_sep (c : N) (needle U T : jsstring) (i : Z) :
  c ∉ needle -> needle <> [] ->
  indexOfFrom U needle i = (-1)%Z -> (0 <= i)%Z ->
  indexOfFrom (U ++ c :: needle ++ T) needle i = (i + Z.of_nat (length U) + 1)%Z.
Proof.
  intros Hc Hne. revert i. induction U as [|u U IH]; intros i Hi Hi0.
  - change ([] ++ c :: needle ++ T) with (c :: needle ++ T).
    cbn [indexOfFrom].
    destruct (startsWith (c :: needle ++ T) needle) eqn:E.
    + destruct needle as [|n ns]; [done|]. simpl in E.
      apply andb_true_iff in E as [E%N.eqb_eq _].
      exfalso. apply Hc. subst. by left.
    + assert (startsWith (needle ++ T) needle = true) as Hs
        by (apply startsWith_prefix; by exists T).
      destruct (needle ++ T); simpl in *; rewrite Hs; lia.
  - change ((u :: U) ++ c :: needle ++ T) with (u :: (U ++ c :: needle ++ T)).
    cbn [indexOfFrom] in Hi |- *.
    destruct (startsWith (u :: U) needle) eqn:E; [lia|].
    destruct (startsWith (u :: U ++ c :: needle ++ T) needle) eqn:E'.
    + apply (startsWith_app_sep c needle (u :: U)) in E'; congruence.
    + rewrite IH by (done || lia). simpl length. lia.
Qed.

Lemma reference_stored (U needle rest : jsstring) :
  47%N ∉ needle -> needle <> [] -> indexOf U needle = (-1)%Z ->
  slice (U ++ js "/" ++ needle ++ rest)
    (indexOf (U ++ js "/" ++ needle ++ rest) needle)
  = needle ++ rest.
Proof.
  intros Hc Hne Hi. unfold indexOf.
  change (U ++ js "/" ++ needle ++ rest) with (U ++ 47%N :: needle ++ rest).
  rewrite indexOfFrom_app_sep by done. unfold slice.
  destruct (Z.ltb_spec (0 + Z.of_nat (length U) + 1) 0); [lia|].
  rewrite length_app. simpl length.
  replace (Z.to_nat _) with (length U + 1)%nat by lia.
  rewrite drop_app_add'; done.
Qed.

(** ** The generated name *)

Lemma js_inj (a b : string) : js a = js b -> a = b.
Proof.
  unfold js. intros H.
  rewrite <- (string_of_list_ascii_of_string a),
    <- (string_of_list_ascii_of_string b).
  f_equal. revert H.
  generalize (list_ascii_of_string a) (list_ascii_of_string b).
  induction l as [|x l IH]; intros [|y l']; simpl; try done.
  intros [= Hxy Hl]. f_equal; [|by apply IH].
  by rewrite <- (ascii_N_embedding x), <- (ascii_N_embedding y), Hxy.
Qed.

Lemma to_int_proper (n : Z) :
  Z.to_int n <> Decimal.Pos Decimal.Nil /\ Z.to_int n <> Decimal.Neg Decimal.Nil.
Proof.
  destruct n as [|p|p]; simpl; split; try done;
    intros [= H]; by apply Unsigned.to_uint_nonnil in H.
Qed.

Lemma numberToString_inj (n1 n2 : Z) :
  numberToString n1 = numberToString n2 -> n1 = n2.
Proof.
  unfold numberToString. intros H%js_inj.
  apply to_int_inj.
  destruct (to_int_proper n1) as [H1 H1'], (to_int_proper n2) as [H2 H2'].
  pose proof (NilZero.isi _ H1 H1') as E1.
  pose proof (NilZero.isi _ H2 H2') as E2.
  rewrite H in E1. congruence.
Qed.

(** The shape of a number in decimal: a sign, then digits, at least one. *)
Lemma numberToString_shape (n : Z) :
  exists digits,
    numberToString n = (if (n <? 0)%Z then js "-" else []) ++ digits
    /\ Forall isDigit digits /\ digits <> [].
Proof.
  destruct n as [|p|p].
  - exists (js "0"). repeat split; [|done]. repeat constructor; by vm_compute.
  - exists (numberToString (Z.pos p)). split; [done|]. split.
    + by apply numberToString_digits.
    + unfold numberToString. simpl. unfold NilZero.string_of_uint.
      pose proof (Unsigned.to_uint_nonnil p).
      by destruct (Pos.to_uint p).
  - exists (numberToString (Z.pos p)). split; [done|]. split.
    + by apply numberToString_digits.
    + unfold numberToString. simpl. unfold NilZero.string_of_uint.
      pose proof (Unsigned.to_uint_nonnil p).
      by destruct (Pos.to_uint p).
Qed.

Lemma digits_split (d1 d2 r1 r2 : jsstring) :
  Forall isDigit d1 -> Forall isDigit d2 ->
  d1 ++ 45%N :: r1 = d2 ++ 45%N :: r2 -> d1 = d2 /\ r1 = r2.
Proof.
  intros H1. revert d2. induction H1 as [|x d1 Hx _ IH]; intros d2 H2.
  - destruct H2 as [|y d2 Hy _]; simpl; [by intros [= ->]|].
    intros [= <- _]. unfold isDigit in Hy. lia.
  - destruct H2 as [|y d2 Hy H2]; simpl.
    + intros [= -> _]. unfold isDigit in Hx. lia.
    + intros [= -> H]. destruct (IH d2 H2 H) as [-> ->]. done.
Qed.

(** A clock reading can be read back from what follows it. *)
Lemma numberToString_split (n1 n2 : Z) (r1 r2 : jsstring) :
  numberToString n1 ++ js "-" ++ r1 = numberToString n2 ++ js "-" ++ r2 ->
  n1 = n2 /\ r1 = r2.
Proof.
  destruct (numberToString_shape n1) as (d1 & E1 & Hd1 & Hn1).
  destruct (numberToString_shape n2) as (d2 & E2 & Hd2 & Hn2).
  intros H.
  assert (numberToString n1 = numberToString n2 /\ r1 = r2) as [H' ->].
  { rewrite E1, E2 in H |- *.
    change (js "-" ++ r1) with (45%N :: r1) in H.
    change (js "-" ++ r2) with (45%N :: r2) in H.
    destruct (n1 <? 0)%Z, (n2 <? 0)%Z.
    - change (js "-") with [45%N] in *. simpl in H. injection H as H.
      destruct (digits_split d1 d2 r1 r2 Hd1 Hd2 H) as [-> ->]. done.
    - change (js "-") with [45%N] in *. simpl in H.
      destruct Hd2 as [|y d2 Hy _]; [done|]. simpl in H.
      injection H as <- _. unfold isDigit in Hy. lia.
    - change (js "-") with [45%N] in *. simpl in H.
      destruct Hd1 as [|y d1 Hy _]; [done|]. simpl in H.
      injection H as -> _. unfold isDigit in Hy. lia.
    - simpl in H. destruct (digits_split d1 d2 r1 r2 Hd1 Hd2 H) as [-> ->]. done. }
  split; [|done]. by apply numberToString_inj.
Qed.

Lemma numberToString_no_sep (n : Z) : 47%N ∉ numberToString n.
Proof.
  destruct (numberToString_shape n) as (d & -> & Hd & _).
  intros [H|H]%elem_of_app.
  - destruct (n <? 0)%Z; [|by apply elem_of_nil in H].
    change (js "-") with [45%N] in H. by apply list_elem_of_singleton in H.
  - rewrite Forall_forall in Hd. apply Hd in H. unfold isDigit in H. lia.
Qed.

Lemma generatedName_ordinary (env : Env) (f : File) :
  47%N ∉ fieldname f -> 47%N ∉ originalname f -> ordinary (generatedName env f).
Proof.
  intros Hf Ho.
  assert (H45 : 45%N ∈ generatedName env f).
  { unfold generatedName. apply elem_of_app. right.
    change (js "-") with [45%N]. by left. }
  repeat split.
  - apply generatedName_nonempty.
  - intros E. rewrite E in H45. change (js ".") with [46%N] in H45.
    by apply list_elem_of_singleton in H45.
  - intros E. rewrite E in H45. change (js "..") with [46%N; 46%N] in H45.
    apply elem_of_cons in H45 as [?|H45]; [done|].
    by apply list_elem_of_singleton in H45.
  - unfold generatedName. rewrite !elem_of_app.
    pose proof (numberToString_no_sep (now env)).
    change (js "-") with [45%N]. rewrite list_elem_of_singleton.
    intros [?|[?|[?|[?|?]]]]; done.
Qed.

(** The naming scheme is injective within a field. *)
Lemma generatedName_inj (e1 e2 : Env) (f1 f2 : File) :
  fieldname f1 = fieldname f2 ->
  generatedName e1 f1 = generatedName e2 f2 ->
  now e1 = now e2 /\ originalname f1 = originalname f2.
Proof.
  unfold generatedName. intros -> H.
  apply app_inv_head in H. change (js "-") with [45%N] in H at 1 3.
  simpl in H. injection H as H. by apply numberToString_split.
Qed.

(** ** Where an accepted file lands *)

Lemma ordinary_img : ordinary (js "img").
Proof.
  apply ordinary_literal; try done.
  apply (bool_decide_eq_false_1 (47%N ∈ js "img")). by vm_compute.
Qed.

Lemma ordinary_document : ordinary (js "document").
Proof.
  apply ordinary_literal; try done.
  apply (bool_decide_eq_false_1 (47%N ∈ js "document")). by vm_compute.
Qed.

Lemma storedIn_public (env : Env) (d : disk) (f : File)
    (dirname : jsstring) :
  ordinary dirname -> 47%N ∉ fieldname f -> 47%N ∉ originalname f ->
  storedIn env d f (js "./public/" ++ dirname ++ js "/")
  = Next (<[Path.resolve (cwd env) (js "public") ++ js "/" ++ dirname ++ js "/"
            ++ generatedName env f := stream f]> d)
         (Some {| file := f;
                  sf_destination := js "./public/" ++ dirname ++ js "/";
                  sf_filename := generatedName env f;
                  path := js "public/" ++ dirname ++ js "/"
                          ++ generatedName env f |}).
Proof.
  intros Hd Hf Ho. unfold storedIn. cbv zeta.
  pose proof (generatedName_ordinary env f Hf Ho) as Hn.
  by rewrite normalize_stored, resolve_public.
Qed.

(** ** Where an accepted file lands, continued *)

Lemma handleFile_located (env : Env) (req : Request)
    (d d' : disk) (f : File) (sf : StoredFile) :
  handleFile env d req f = Normal (Next d' (Some sf)) ->
  47%N ∉ fieldname f -> 47%N ∉ originalname f ->
  exists dirname,
    bucketOf f dirname
    /\ sf = {| file := f;
               sf_destination := js "./public/" ++ dirname ++ js "/";
               sf_filename := generatedName env f;
               path := js "public/" ++ dirname ++ js "/" ++ generatedName env f |}
    /\ d' = <[keptAt env dirname (generatedName env f) := stream f]> d.
Proof.
  intros Hh Hf Ho.
  apply handleFile_stored in Hh as (dir & Hst & [[Hi ->]|(Hi & Hdoc & ->)]).
  - exists (js "img"). split; [by left|].
    change (js "./public/img/") with (js "./public/" ++ js "img" ++ js "/") in Hst.
    rewrite storedIn_public in Hst by (done || apply ordinary_img).
    injection Hst as <- <-. done.
  - exists (js "document"). split; [by right|].
    change (js "./public/document/")
      with (js "./public/" ++ js "document" ++ js "/") in Hst.
    rewrite storedIn_public in Hst by (done || apply ordinary_document).
    injection Hst as <- <-. done.
Qed.

Lemma single_located (field : jsstring) (env : Env) (req : Request)
    (d d' : disk) (sf : StoredFile) :
  single field env req d = Next d' (Some sf) ->
  47%N ∉ field -> 47%N ∉ originalname (file sf) ->
  exists dirname,
    bucketOf (file sf) dirname
    /\ fieldname (file sf) = field
    /\ sf_destination sf = js "./public/" ++ dirname ++ js "/"
    /\ sf_filename sf = generatedName env (file sf)
    /\ path sf = js "public/" ++ dirname ++ js "/" ++ generatedName env (file sf)
    /\ Path.resolve (cwd env) (path sf)
       = keptAt env dirname (generatedName env (file sf))
    /\ d' = <[keptAt env dirname (generatedName env (file sf))
              := stream (file sf)]> d.
Proof.
  intros (f & v & _ & Hfield & _ & _ & _ & _ & Hh)%single_stored Hf Ho.
  assert (file sf = f) as Hsf.
  { apply handleFile_stored in Hh as (dir & Hst & _).
    unfold storedIn in Hst. by injection Hst as _ <-. }
  rewrite Hsf in *. subst field.
  destruct (handleFile_located env req d d' f sf Hh Hf Ho)
    as (dirname & Hb & -> & ->).
  exists dirname. repeat split; try done.
  cbn [path]. apply resolve_public.
  - destruct Hb as [[-> _]|[-> _]]; [apply ordinary_img | apply ordinary_document].
  - by apply generatedName_ordinary.
Qed.

(** Where an accepted upload lands: in [public/img] or [public/document]
    under the working directory, by its declared type, under the generated
    name; the path attached to the request is the same place relative to
    the working directory. *)
Theorem accepted_upload_location (field : jsstring) (env : Env) (req : Request)
    (d d' : disk) (sf : StoredFile) :
  single field env req d = Next d' (Some sf) ->
  47%N ∉ field -> 47%N ∉ originalname (file sf) ->
  exists dirname,
    bucketOf (file sf) dirname
    /\ path sf = js "public/" ++ dirname ++ js "/" ++ generatedName env (file sf)
    /\ Path.resolve (cwd env) (path sf)
       = keptAt env dirname (generatedName env (file sf))
    /\ d' = <[keptAt env dirname (generatedName env (file sf))
              := stream (file sf)]> d.
Proof.
  intros Hs Hf Ho.
  destruct (single_located field env req d d' sf Hs Hf Ho)
    as (dirname & Hb & _ & _ & _ & Hp & Hk & Hd).
  by exists dirname.
Qed.

Lemma single_accepts (field : jsstring) (env : Env) (req : Request)
    (d : disk) (f : File) (v : jsval) (dirname : jsstring) :
  attached req = Some f -> fieldname f = field ->
  getUser_userId req = Normal v -> truthy v = true ->
  extensionOk (originalname f) = true ->
  bucketOf f dirname -> 47%N ∉ field -> 47%N ∉ originalname f ->
  single field env req d
  = Next (<[keptAt env dirname (generatedName env f) := stream f]> d)
         (Some {| file := f;
                  sf_destination := js "./public/" ++ dirname ++ js "/";
                  sf_filename := generatedName env f;
                  path := js "public/" ++ dirname ++ js "/"
                          ++ generatedName env f |}).
Proof.
  intros Hf Hfield Hu Hv Hx Hb Hfs Ho. subst field.
  assert (Hne : originalname f <> []).
  { intros E. rewrite E in Hx. by vm_compute in Hx. }
  rewrite single_cases, Hf, Hu, Hv, Hx.
  rewrite (bool_decide_eq_false_2 _ Hne), (bool_decide_eq_true_2 _ eq_refl).
  cbn [negb]. rewrite handleFile_cases.
  destruct Hb as [[-> Hi]|(-> & Hi & Hdoc)].
  - apply startsWith_prefix in Hi. rewrite Hi.
    change (js "./public/img/") with (js "./public/" ++ js "img" ++ js "/").
    by rewrite storedIn_public by (done || apply ordinary_img).
  - apply startsWith_not_prefix in Hi. rewrite Hi.
    apply isDocumentType_spec in Hdoc. rewrite Hdoc.
    change (js "./public/document/")
      with (js "./public/" ++ js "document" ++ js "/").
    by rewrite storedIn_public by (done || apply ordinary_document).
Qed.

(** [POST /img/] on an image of a signed-in user: the bytes are written
    under [public/img] with the generated name, and the body is the
    reference [img/<name>], the name percent-encoded. *)
Theorem postImg_stores_image (env : Env) (req : Request)
    (d : disk) (f : File) (v : jsval) :
  attached req = Some f -> fieldname f = js "image" ->
  getUser_userId req = Normal v -> truthy v = true ->
  extensionOk (originalname f) = true ->
  js "image" `prefix_of` mimetype f ->
  47%N ∉ originalname f ->
  indexOf (Url.pathToFileURL (cwd env) (js "public")) (js "img") = (-1)%Z ->
  postImg env req d
  = (Sent (js "img/" ++ encoded (generatedName env f)),
     <[keptAt env (js "img") (generatedName env f) := stream f]> d).
Proof.
  intros Hf Hfield Hu Hv Hx Hi Ho Hcwd.
  assert (Hfs : 47%N ∉ js "image")
    by (apply (bool_decide_eq_false_1 (47%N ∈ js "image")); by vm_compute).
  unfold postImg, route.
  rewrite (single_accepts (js "image") env req d f v (js "img")); try done.
  - assert (Hn : ordinary (generatedName env f))
      by (apply generatedName_ordinary; [by rewrite Hfield | done]).
    unfold imgHandler. cbn [path]. cbv zeta.
    rewrite fileURL_stored by (done || apply ordinary_img).
    rewrite reference_stored; [done | apply ordinary_img | done | done].
  - by left.
Qed.

(** [POST /document/] on a document of a signed-in user, likewise. *)
Theorem postDocument_stores_document (env : Env) (req : Request)
    (d : disk) (f : File) (v : jsval) :
  attached req = Some f -> fieldname f = js "document" ->
  getUser_userId req = Normal v -> truthy v = true ->
  extensionOk (originalname f) = true ->
  ~ js "image" `prefix_of` mimetype f -> isDocumentType (mimetype f) ->
  47%N ∉ originalname f ->
  indexOf (Url.pathToFileURL (cwd env) (js "public")) (js "document")
  = (-1)%Z ->
  postDocument env req d
  = (Sent (js "document/" ++ encoded (generatedName env f)),
     <[keptAt env (js "document") (generatedName env f) := stream f]> d).
Proof.
  intros Hf Hfield Hu Hv Hx Hi Hdoc Ho Hcwd.
  assert (Hfs : 47%N ∉ js "document")
    by (apply (bool_decide_eq_false_1 (47%N ∈ js "document")); by vm_compute).
  unfold postDocument, route.
  rewrite (single_accepts (js "document") env req d f v (js "document"));
    try done.
  - assert (Hn : ordinary (generatedName env f))
      by (apply generatedName_ordinary; [by rewrite Hfield | done]).
    unfold documentHandler. cbn [path]. cbv zeta.
    rewrite fileURL_stored by (done || apply ordinary_document).
    rewrite reference_stored; [done | apply ordinary_document | done | done].
  - by right.
Qed.

(** ** Two uploads *)

(** Two accepted uploads with the same original name and destination
    within one clock reading: the second replaces the first. *)
Theorem same_clock_overwrites (field : jsstring) (env : Env)
    (req1 req2 : Request) (d d1 d2 : disk)
    (sf1 sf2 : StoredFile) :
  single field env req1 d = Next d1 (Some sf1) ->
  single field env req2 d1 = Next d2 (Some sf2) ->
  originalname (file sf1) = originalname (file sf2) ->
  sf_destination sf1 = sf_destination sf2 ->
  path sf1 = path sf2
  /\ d2 = <[Path.resolve (cwd env) (path sf2) := stream (file sf2)]> d.
Proof.
  intros (f1 & v1 & _ & Hfield1 & _ & _ & _ & _ & Hh1)%single_stored.
  intros (f2 & v2 & _ & Hfield2 & _ & _ & _ & _ & Hh2)%single_stored.
  apply handleFile_stored in Hh1 as (dir1 & Hst1 & _).
  apply handleFile_stored in Hh2 as (dir2 & Hst2 & _).
  unfold storedIn in Hst1, Hst2.
  injection Hst1 as <- <-. injection Hst2 as <- <-.
  cbn [file sf_destination path]. intros Ho ->.
  assert (Hg : generatedName env f1 = generatedName env f2).
  { unfold generatedName. by rewrite Hfield1, Hfield2, Ho. }
  rewrite Hg. split; [done|]. apply insert_insert_eq.
Qed.

(** Two accepted uploads at different clock readings: both files are on
    the disk afterwards. *)
Theorem distinct_clocks_keep_both (field : jsstring) (e1 e2 : Env)
    (req1 req2 : Request) (d d1 d2 : disk)
    (sf1 sf2 : StoredFile) :
  single field e1 req1 d = Next d1 (Some sf1) ->
  single field e2 req2 d1 = Next d2 (Some sf2) ->
  cwd e1 = cwd e2 -> now e1 <> now e2 ->
  47%N ∉ field ->
  47%N ∉ originalname (file sf1) -> 47%N ∉ originalname (file sf2) ->
  path sf1 <> path sf2
  /\ d2 !! Path.resolve (cwd e1) (path sf1) = Some (stream (file sf1))
  /\ d2 !! Path.resolve (cwd e2) (path sf2) = Some (stream (file sf2)).
Proof.
  intros Hs1 Hs2 Hcwd Hnow Hf Ho1 Ho2.
  destruct (single_located field e1 req1 d d1 sf1 Hs1 Hf Ho1)
    as (dn1 & Hb1 & Hfield1 & _ & _ & Hp1 & Hk1 & Hd1).
  destruct (single_located field e2 req2 d1 d2 sf2 Hs2 Hf Ho2)
    as (dn2 & Hb2 & Hfield2 & _ & _ & Hp2 & Hk2 & Hd2).
  subst d1 d2.
  assert (Hne : dn1 ++ js "/" ++ generatedName e1 (file sf1)
                <> dn2 ++ js "/" ++ generatedName e2 (file sf2)).
  { intros E.
    destruct Hb1 as [[-> _]|[-> _]], Hb2 as [[-> _]|[-> _]].
    - apply app_inv_head, app_inv_head in E.
      apply generatedName_inj in E as [? _]; [done | congruence].
    - apply (f_equal (take 1)) in E. by vm_compute in E.
    - apply (f_equal (take 1)) in E. by vm_compute in E.
    - apply app_inv_head, app_inv_head in E.
      apply generatedName_inj in E as [? _]; [done | congruence]. }
  rewrite Hk1, Hk2. unfold keptAt. rewrite Hcwd. split; [|split].
  - rewrite Hp1, Hp2. intros E. by apply app_inv_head in E.
  - rewrite lookup_insert_ne; [apply lookup_insert_eq|].
    intros E. by apply app_inv_head, app_inv_head in E.
  - apply lookup_insert_eq.
Qed.

(** ** The reference, in general *)

Lemma fileURL_nonempty (cwd p : jsstring) : Url.pathToFileURL cwd p <> [].
Proof. done. Qed.

Lemma reference_shape (url needle : jsstring) :
  url <> [] -> needle <> [] ->
  let body := slice url (indexOf url needle) in
  body `suffix_of` url
  /\ body <> []
  /\ (needle `prefix_of` body
      \/ indexOf url needle = (-1)%Z /\ length body = 1%nat).
Proof.
  intros Hu Hn body. subst body. split; [|].
  - unfold slice. apply suffix_drop.
  - destruct (decide (indexOf url needle = (-1)%Z)) as [E|E].
    + rewrite E, slice_not_found.
      assert (length (drop (length url - 1) url) = 1%nat) as Hl.
      { rewrite length_drop. destruct url; [done|]. simpl. lia. }
      split; [|by right]. intros E'. by rewrite E' in Hl.
    + pose proof (slice_indexOf url needle E) as [k Hk].
      split; [|left; by exists k]. rewrite Hk. by destruct needle.
Qed.


(** ** The properties on the sample requests *)

Lemma destination_first_match_witness :
  destination (signedIn catPng) catPng record
  = Normal (VNull, VString (js "./public/img/"))
  /\ destination (signedIn reportPdf) reportPdf record
     = Normal (VNull, VString (js "./public/document/")).
Proof.
  split.
  - apply (proj1 (destination_first_match _ (signedIn catPng) catPng record)).
    by exists (js "/png").
  - apply (proj2 (destination_first_match _ (signedIn reportPdf) reportPdf record)).
    + apply startsWith_not_prefix. by vm_compute.
    + apply isDocumentType_spec. by vm_compute.
Defined.

Lemma fileFilter_two_tier_witness :
  decision (anonymous catExe) catExe = Normal (VNull, VBool false)
  /\ decision (signedIn catExe) catExe
     = Normal (VError (UserInputError (js "Unsupported file type")), VUndefined).
Proof.
  split.
  - apply (proj1 (fileFilter_two_tier (anonymous catExe) catExe VUndefined
                    eq_refl)).
    reflexivity.
  - apply (proj1 (proj2 (fileFilter_two_tier (signedIn catExe) catExe (VNumber 7)
                           eq_refl))).
    + reflexivity.
    + vm_compute. reflexivity.
Defined.

Lemma postImg_unauthenticated_witness :
  postImg env0 (anonymous catPng) ∅ = (Sent (js "Image not attached"), ∅).
Proof.
  apply (postImg_unauthenticated env0 (anonymous catPng) ∅ catPng VUndefined);
    reflexivity.
Defined.

Lemma postDocument_not_attached_witness :
  postDocument env0 (anonymous reportPdf) ∅
  = (Sent (js "Document not attached"), ∅).
Proof.
  apply (postDocument_not_attached env0 (anonymous reportPdf) ∅)
    with (f := reportPdf) (v := VUndefined); reflexivity.
Defined.


Lemma generated_file_name_witness :
  single (js "image") env0 (signedIn catPng) ∅
  = Next (<[js "/app/public/img/image-1700000000000-cat.PNG" := [1; 2; 3]%N]> ∅)
         (Some catStored)
  /\ sf_filename catStored
     = js "image" ++ js "-" ++ numberToString 1700000000000 ++ js "-"
       ++ js "cat.PNG".
Proof.
  assert (H : single (js "image") env0 (signedIn catPng) ∅
              = Next (<[js "/app/public/img/image-1700000000000-cat.PNG"
                        := [1; 2; 3]%N]> ∅) (Some catStored))
    by (vm_compute; reflexivity).
  split; [exact H|].
  apply (proj2 (generated_file_name (js "image") env0 (signedIn catPng) ∅) _ _ H).
Defined.

Lemma unknown_type_rejected_witness :
  destination (signedIn notesTxt) notesTxt record = Normal (VNull, VBool false)
  /\ (postImg env0 (signedIn notesTxt) ∅).2 = ∅.
Proof.
  assert (H1 : ~ js "image" `prefix_of` mimetype notesTxt)
    by (apply startsWith_not_prefix; vm_compute; reflexivity).
  assert (H2 : ~ isDocumentType (mimetype notesTxt))
    by (intros H; apply isDocumentType_spec in H; vm_compute in H; discriminate H).
  destruct (unknown_type_rejected notesTxt H1 H2) as (Hd & _ & Hp).
  split; [apply Hd|].
  apply (Hp env0 (signedIn notesTxt) ∅). reflexivity.
Defined.

(** C4 as the specification words it fails on the declared type
    [imagex/y]: that type does not begin with [image/] and is none of the
    document types, yet the destination is the image directory and
    [POST /img/] writes the file there. *)
Lemma unknown_type_counterexample :
  ~ js "image/" `prefix_of` mimetype imagexFile
  /\ ~ isDocumentType (mimetype imagexFile)
  /\ destination (signedIn imagexFile) imagexFile record
     = Normal (VNull, VString (js "./public/img/"))
  /\ postImg env0 (signedIn imagexFile) ∅
     = (Sent (js "img/image-1700000000000-a.png"),
        <[js "/app/public/img/image-1700000000000-a.png" := [1; 2; 3]%N]> ∅).
Proof.
  split; [apply startsWith_not_prefix; by vm_compute|].
  split; [intros H; apply isDocumentType_spec in H; by vm_compute in H|].
  split; by vm_compute.
Qed.

Lemma write_requires_admission_witness :
  exists f v,
    attached (signedIn catPng) = Some f /\ fieldname f = js "image"
    /\ getUser_userId (signedIn catPng) = Normal v /\ truthy v = true
    /\ extensionOk (originalname f) = true
    /\ (js "image" `prefix_of` mimetype f \/ isDocumentType (mimetype f)).
Proof.
  apply (write_requires_admission (js "image") imgHandler env0
           (signedIn catPng) ∅).
  vm_compute. discriminate.
Defined.

Lemma fileFilter_forwards_exception_witness :
  fileFilter (brokenSession catPng) catPng record
  = Normal (VError (HostError (js "session store down")), VUndefined)
  /\ postImg env0 (brokenSession catPng) ∅
     = (NotHandled (VError (HostError (js "session store down"))), ∅).
Proof.
  destruct (fileFilter_forwards_exception (brokenSession catPng) catPng
              (HostError (js "session store down")) eq_refl) as [H1 H2].
  split.
  - apply (H1 _ record).
  - apply (H2 eq_refl).
    + discriminate.
Defined.

Lemma fileFilter_never_throws_witness :
  exists r, fileFilter (signedIn catPng) catPng onlyErrors = Normal r.
Proof.
  apply (fileFilter_never_throws _ (signedIn catPng) catPng onlyErrors).
  intros e. exists (VError e). reflexivity.
Defined.


Lemma fileFilter_ignores_case_witness :
  extensionOk (originalname catPng) = extensionOk (originalname catUpper)
  /\ fileFilter (signedIn catPng) catPng record
     = fileFilter (signedIn catPng) catUpper record.
Proof.
  apply (fileFilter_ignores_case _ (signedIn catPng) catPng catUpper record).
  vm_compute. reflexivity.
Defined.

Lemma accepted_upload_location_witness :
  exists dirname,
    bucketOf (file catStored) dirname
    /\ path catStored
       = js "public/" ++ dirname ++ js "/" ++ generatedName env0 (file catStored)
    /\ Path.resolve (cwd env0) (path catStored)
       = keptAt env0 dirname (generatedName env0 (file catStored))
    /\ <[js "/app/public/img/image-1700000000000-cat.PNG" := [1; 2; 3]%N]> ∅
       = <[keptAt env0 dirname (generatedName env0 (file catStored))
           := stream (file catStored)]> (∅ : disk).
Proof.
  apply (accepted_upload_location (js "image") env0 (signedIn catPng) ∅).
  - vm_compute. reflexivity.
  - apply (bool_decide_eq_false_1 (47%N ∈ js "image")). vm_compute. reflexivity.
  - apply (bool_decide_eq_false_1 (47%N ∈ js "cat.PNG")). vm_compute. reflexivity.
Defined.

Lemma postImg_stores_image_witness :
  postImg env0 (signedIn catPng) ∅
  = (Sent (js "img/" ++ encoded (generatedName env0 catPng)),
     <[keptAt env0 (js "img") (generatedName env0 catPng) := stream catPng]> ∅).
Proof.
  apply (postImg_stores_image env0 (signedIn catPng) ∅ catPng (VNumber 7)).
  - reflexivity.
  - reflexivity.
  - reflexivity.
  - reflexivity.
  - vm_compute. reflexivity.
  - exists (js "/png"). reflexivity.
  - apply (bool_decide_eq_false_1 (47%N ∈ js "cat.PNG")). vm_compute. reflexivity.
  - vm_compute. reflexivity.
Defined.

Lemma postDocument_stores_document_witness :
  postDocument env0 (signedIn reportPdf) ∅
  = (Sent (js "document/" ++ encoded (generatedName env0 reportPdf)),
     <[keptAt env0 (js "document") (generatedName env0 reportPdf)
       := stream reportPdf]> ∅).
Proof.
  apply (postDocument_stores_document env0 (signedIn reportPdf) ∅ reportPdf
           (VNumber 7)).
  - reflexivity.
  - reflexivity.
  - reflexivity.
  - reflexivity.
  - vm_compute. reflexivity.
  - apply startsWith_not_prefix. vm_compute. reflexivity.
  - apply isDocumentType_spec. vm_compute. reflexivity.
  - apply (bool_decide_eq_false_1 (47%N ∈ js "report.pdf")).
    vm_compute. reflexivity.
  - vm_compute. reflexivity.
Defined.

Lemma same_clock_overwrites_witness :
  path catStored = path catStoredAgain
  /\ <[js "/app/public/img/image-1700000000000-cat.PNG" := [4; 5; 6]%N]>
       (<[js "/app/public/img/image-1700000000000-cat.PNG" := [1; 2; 3]%N]> ∅)
     = <[Path.resolve (cwd env0) (path catStoredAgain)
         := stream (file catStoredAgain)]> (∅ : disk).
Proof.
  apply (same_clock_overwrites (js "image") env0 (signedIn catPng)
           (signedIn catPngAgain) ∅
           (<[js "/app/public/img/image-1700000000000-cat.PNG" := [1; 2; 3]%N]> ∅)).
  - vm_compute. reflexivity.
  - vm_compute. reflexivity.
  - reflexivity.
  - reflexivity.
Defined.

Lemma distinct_clocks_keep_both_witness :
  path catStored <> path catStoredLater
  /\ (<[js "/app/public/img/image-1700000000001-cat.PNG" := [1; 2; 3]%N]>
        (<[js "/app/public/img/image-1700000000000-cat.PNG" := [1; 2; 3]%N]> ∅)
      : disk) !! Path.resolve (cwd env0) (path catStored)
     = Some (stream (file catStored))
  /\ (<[js "/app/public/img/image-1700000000001-cat.PNG" := [1; 2; 3]%N]>
        (<[js "/app/public/img/image-1700000000000-cat.PNG" := [1; 2; 3]%N]> ∅)
      : disk) !! Path.resolve (cwd env1) (path catStoredLater)
     = Some (stream (file catStoredLater)).
Proof.
  apply (distinct_clocks_keep_both (js "image") env0 env1 (signedIn catPng)
           (signedIn catPng) ∅
           (<[js "/app/public/img/image-1700000000000-cat.PNG" := [1; 2; 3]%N]> ∅)).
  - vm_compute. reflexivity.
  - vm_compute. reflexivity.
  - reflexivity.
  - discriminate.
  - apply (bool_decide_eq_false_1 (47%N ∈ js "image")). vm_compute. reflexivity.
  - apply (bool_decide_eq_false_1 (47%N ∈ js "cat.PNG")). vm_compute. reflexivity.
  - apply (bool_decide_eq_false_1 (47%N ∈ js "cat.PNG")). vm_compute. reflexivity.
Defined.
